(** * cobalt/dom/intersection_observer.cc

    A shallow embedding of [cobalt::dom::IntersectionObserver] and the
    properties of its construction, target tracking, entry queue and
    notification.

    - IEEE doubles are [spec_float] values compared with [SFltb], as C++
      compares them ([NaN] is unordered, [-0.0] equals [+0.0]).
    - A member function is a computation of the monad [M]: it reads [this],
      updates the members of the object, and records, in order, every call
      it makes on an external collaborator (elements, the task manager, the
      exception state, the script callback).
    - [std::sort] is a parameter of the construction section, constrained
      by the contract the C++ standard gives it. *)

From Stdlib Require Import ZArith Lia.
From Stdlib Require Import Floats.SpecFloat.
From stdpp Require Import base option list sorting strings.

Local Open Scope string_scope.
Local Open Scope list_scope.

(** ** Doubles *)

Module Double.

Definition double := spec_float.

(** C++ [a < b], [a > b] and [a <= b] on doubles. *)
Definition lt (a b : double) : bool := SFltb a b.
Definition gt (a b : double) : bool := SFltb b a.
Definition le (a b : double) : bool := SFleb a b.

(** The doubles the source and the examples write as literals, in
    binary64 form. *)
Definition zero : double := S754_zero false.
Definition neg_zero : double := S754_zero true.
Definition one : double := S754_finite false 4503599627370496 (-52).
Definition half : double := S754_finite false 4503599627370496 (-53).
Definition quarter : double := S754_finite false 4503599627370496 (-54).
Definition one_and_half : double := S754_finite false 6755399441055744 (-52).
Definition minus_one : double := S754_finite true 4503599627370496 (-52).

Definition is_nan (a : double) : bool :=
  match a with S754_nan => true | _ => false end.

(** [0.0 <= a <= 1.0]: the values the threshold check lets through, NaN
    apart. *)
Definition in_unit_interval (a : double) : bool :=
  le zero a && le a one.

(** The order a sorted range has in C++: no later element is less than an
    earlier one. *)
Definition not_after (a b : double) : Prop := lt b a = false.

(** The place of a double other than NaN in the order of [<]: its class
    (negative infinity, negative, zero, positive, positive infinity),
    then exponent and mantissa, both negated for a negative number. *)
Definition rank (a : double) : Z * Z * Z :=
  match a with
  | S754_nan => (0, 0, 0)%Z
  | S754_infinity true => (-2, 0, 0)%Z
  | S754_infinity false => (2, 0, 0)%Z
  | S754_zero _ => (0, 0, 0)%Z
  | S754_finite true m e => (-1, - e, Z.neg m)%Z
  | S754_finite false m e => (1, e, Z.pos m)%Z
  end.

Definition rank_lt (x y : Z * Z * Z) : Prop :=
  match x, y with
  | (c1, e1, m1), (c2, e2, m2) =>
      (c1 < c2 \/ (c1 = c2 /\ (e1 < e2 \/ (e1 = e2 /\ m1 < m2))))%Z
  end.

End Double.
Import Double.

(** ** References and external collaborators *)

(** The address of a [dom::Element]; targets are compared by identity. *)
Inductive Element := ElementAt (addr : nat).

(** The address of an [IntersectionObserverEntry]. *)
Inductive IntersectionObserverEntry := EntryAt (addr : nat).

(** The address of an [IntersectionObserver] ([this]). *)
Inductive ObserverRef := ObserverAt (addr : nat).

#[global] Instance Element_eq_dec : EqDecision Element.
Proof. solve_decision. Defined.
#[global] Instance IntersectionObserverEntry_eq_dec :
  EqDecision IntersectionObserverEntry.
Proof. solve_decision. Defined.
#[global] Instance ObserverRef_eq_dec : EqDecision ObserverRef.
Proof. solve_decision. Defined.

(** [scoped_refptr<T>]: a reference that may be null. *)
Definition scoped_refptr (T : Type) := option T.

Definition IntersectionObserverEntrySequence := list IntersectionObserverEntry.
Definition ElementVector := list (scoped_refptr Element).

(** [root->owner_document()->intersection_observer_task_manager()]. *)
Inductive IntersectionObserverTaskManager :=
  TaskManagerOfDocumentOf (root : Element).

#[global] Instance IntersectionObserverTaskManager_eq_dec :
  EqDecision IntersectionObserverTaskManager.
Proof. solve_decision. Defined.

(** A parsed root margin ([cssom::PropertyListValue]). *)
Inductive PropertyListValue := PropertyList (items : list string).

#[global] Instance PropertyListValue_eq_dec : EqDecision PropertyListValue.
Proof. solve_decision. Defined.

Inductive SimpleExceptionType := kSyntaxError | kRangeError.

#[global] Instance SimpleExceptionType_eq_dec : EqDecision SimpleExceptionType.
Proof. solve_decision. Defined.

(** The calls the observer makes on its collaborators. *)
Inductive Call :=
| RegisterIntersectionObserverTarget (target : Element) (observer : ObserverRef)
| UnregisterIntersectionObserverTarget (target : Element) (observer : ObserverRef)
| OnIntersectionObserverCreated
    (manager : IntersectionObserverTaskManager) (observer : ObserverRef)
| OnIntersectionObserverDestroyed
    (manager : IntersectionObserverTaskManager) (observer : ObserverRef)
| QueueIntersectionObserverTask (manager : IntersectionObserverTaskManager)
| SetSimpleException (type : SimpleExceptionType) (message : string)
| RunScriptCallback
    (intersections : IntersectionObserverEntrySequence) (observer : ObserverRef).

#[global] Instance Call_eq_dec : EqDecision Call.
Proof. solve_decision. Defined.

(** What a script can do to the observer it is handed while its callback
    runs: the methods the observer exposes to script. *)
Inductive ScriptCall :=
| ScriptObserve (target : scoped_refptr Element)
| ScriptUnobserve (target : scoped_refptr Element)
| ScriptDisconnect
| ScriptTakeRecords.

(** [script::CallbackResult<void>], with the calls the script made on the
    observer before it returned or threw. *)
Record CallbackResult := {
  exception : bool;
  reentrant_calls : list ScriptCall
}.

(** The script function behind [IntersectionObserverCallbackArg]. *)
Definition IntersectionObserverCallbackArg :=
  IntersectionObserverEntrySequence -> ObserverRef -> CallbackResult.

(** [options.threshold()]: a double, a sequence of doubles, or neither. *)
Inductive ThresholdType :=
| ThresholdDouble (value : double)
| ThresholdSequence (values : list double)
| ThresholdUnspecified.

Record IntersectionObserverInit := {
  root : scoped_refptr Element;
  root_margin : string;
  threshold : ThresholdType
}.

(** What construction reads from [script::EnvironmentSettings]: the
    document element of the window's document and the CSS parser of its
    element context. The document is taken to have a document element:
    the source stores what [document_element()] returns without a check,
    and with a null one [task_manager()] would dereference a null
    [root_]. Nothing below says what the constructor does in that case. *)
Record EnvironmentSettings := {
  document_element : Element;
  ParsePropertyValue : string -> string -> scoped_refptr PropertyListValue
}.

(** ** The object *)

Record IntersectionObserver := {
  callback_ : option IntersectionObserverCallbackArg;
  root_ : scoped_refptr Element;
  root_margin_ : string;
  root_margin_property_value_ : scoped_refptr PropertyListValue;
  thresholds_ : list double;
  observation_targets_ : ElementVector;
  queued_entries_ : IntersectionObserverEntrySequence
}.

(** The members before the constructor body runs. *)
Definition uninitialized : IntersectionObserver := {|
  callback_ := None;
  root_ := None;
  root_margin_ := "";
  root_margin_property_value_ := None;
  thresholds_ := [];
  observation_targets_ := [];
  queued_entries_ := []
|}.

Definition set_callback_ v (o : IntersectionObserver) :=
  {| callback_ := v; root_ := root_ o; root_margin_ := root_margin_ o;
     root_margin_property_value_ := root_margin_property_value_ o;
     thresholds_ := thresholds_ o;
     observation_targets_ := observation_targets_ o;
     queued_entries_ := queued_entries_ o |}.

Definition set_root_ v (o : IntersectionObserver) :=
  {| callback_ := callback_ o; root_ := v; root_margin_ := root_margin_ o;
     root_margin_property_value_ := root_margin_property_value_ o;
     thresholds_ := thresholds_ o;
     observation_targets_ := observation_targets_ o;
     queued_entries_ := queued_entries_ o |}.

Definition set_root_margin_ v (o : IntersectionObserver) :=
  {| callback_ := callback_ o; root_ := root_ o; root_margin_ := v;
     root_margin_property_value_ := root_margin_property_value_ o;
     thresholds_ := thresholds_ o;
     observation_targets_ := observation_targets_ o;
     queued_entries_ := queued_entries_ o |}.

Definition set_root_margin_property_value_ v (o : IntersectionObserver) :=
  {| callback_ := callback_ o; root_ := root_ o; root_margin_ := root_margin_ o;
     root_margin_property_value_ := v;
     thresholds_ := thresholds_ o;
     observation_targets_ := observation_targets_ o;
     queued_entries_ := queued_entries_ o |}.

Definition set_thresholds_ v (o : IntersectionObserver) :=
  {| callback_ := callback_ o; root_ := root_ o; root_margin_ := root_margin_ o;
     root_margin_property_value_ := root_margin_property_value_ o;
     thresholds_ := v;
     observation_targets_ := observation_targets_ o;
     queued_entries_ := queued_entries_ o |}.

Definition set_observation_targets_ v (o : IntersectionObserver) :=
  {| callback_ := callback_ o; root_ := root_ o; root_margin_ := root_margin_ o;
     root_margin_property_value_ := root_margin_property_value_ o;
     thresholds_ := thresholds_ o;
     observation_targets_ := v;
     queued_entries_ := queued_entries_ o |}.

Definition set_queued_entries_ v (o : IntersectionObserver) :=
  {| callback_ := callback_ o; root_ := root_ o; root_margin_ := root_margin_ o;
     root_margin_property_value_ := root_margin_property_value_ o;
     thresholds_ := thresholds_ o;
     observation_targets_ := observation_targets_ o;
     queued_entries_ := v |}.

(** ** Member functions as computations *)

(** How a statement ends: control goes on with a value, the function
    returns, or the program dereferences a null pointer. *)
Inductive Flow (R A : Type) :=
| Next (a : A)
| Return (r : R)
| Crash.
Arguments Next {R A} a.
Arguments Return {R A} r.
Arguments Crash {R A}.

(** A piece of a member function with return type [R]: from [this] and the
    members to the flow, the members afterwards and the calls made. *)
Definition M (R A : Type) : Type :=
  ObserverRef -> IntersectionObserver ->
  Flow R A * IntersectionObserver * list Call.

#[global] Instance M_ret {R} : MRet (M R) :=
  fun A (a : A) _ o => (Next a, o, []).

#[global] Instance M_bind {R} : MBind (M R) :=
  fun A B (k : A -> M R B) (m : M R A) this o =>
    match m this o with
    | (Next a, o1, calls1) =>
        match k a this o1 with
        | (flow, o2, calls2) => (flow, o2, calls1 ++ calls2)
        end
    | (Return r, o1, calls1) => (Return r, o1, calls1)
    | (Crash, o1, calls1) => (Crash, o1, calls1)
    end.

Definition return_ {R A} (r : R) : M R A := fun _ o => (Return r, o, []).
Definition crash {R A} : M R A := fun _ o => (Crash, o, []).
Definition this_ {R} : M R ObserverRef := fun this o => (Next this, o, []).
Definition member {R A} (f : IntersectionObserver -> A) : M R A :=
  fun _ o => (Next (f o), o, []).
Definition assign {R} (f : IntersectionObserver -> IntersectionObserver)
  : M R unit := fun _ o => (Next tt, f o, []).
Definition call {R} (c : Call) : M R unit := fun _ o => (Next tt, o, [c]).

(** A whole member function, called on [this] with members [o]: its return
    value, the members afterwards and the calls made; [None] when it
    dereferenced a null pointer. *)
Definition invoke {R} (body : M R R) (this : ObserverRef)
    (o : IntersectionObserver) : option (R * IntersectionObserver * list Call) :=
  match body this o with
  | (Next r, o', calls) => Some (r, o', calls)
  | (Return r, o', calls) => Some (r, o', calls)
  | (Crash, _, _) => None
  end.

(** A member function called from inside another one. *)
Definition nested {R R'} (body : M R R) : M R' R :=
  fun this o =>
    match body this o with
    | (Next r, o', calls) => (Next r, o', calls)
    | (Return r, o', calls) => (Next r, o', calls)
    | (Crash, o', calls) => (Crash, o', calls)
    end.

(** A loop over a sequence whose body may return from the function. *)
Fixpoint for_each {R A} (l : list A) (body : A -> M R unit) : M R unit :=
  match l with
  | [] => mret tt
  | x :: rest => body x ;; for_each rest body
  end.

(** ** The member functions of intersection_observer.cc *)

(** [IntersectionObserver::task_manager]: dereferences [root_]. *)
Definition task_manager {R} : M R IntersectionObserverTaskManager :=
  r ← member root_;
  match r with
  | Some e => mret (TaskManagerOfDocumentOf e)
  | None => crash
  end.

(** [IntersectionObserver::~IntersectionObserver]. *)
Definition destructor : M unit unit :=
  manager ← task_manager;
  this ← this_;
  call (OnIntersectionObserverDestroyed manager this).

(** [IntersectionObserver::thresholds]: a fresh copy, element by element. *)
Definition thresholds : M (list double) (list double) :=
  ts ← member thresholds_;
  return_ (foldl (fun result it => result ++ [it]) [] ts).

(** The loop of [TrackObservationTarget] over [v]: the vector it leaves
    (null slots erased as far as the scan went) and whether it left by
    [return], having found [target]. *)
Fixpoint track_scan (target : scoped_refptr Element) (v : ElementVector)
  : ElementVector * bool :=
  match v with
  | [] => ([], false)
  | None :: rest => track_scan target rest
  | Some e :: rest =>
      if decide (Some e = target) then (Some e :: rest, true)
      else let '(rest', found) := track_scan target rest in
           (Some e :: rest', found)
  end.

(** [IntersectionObserver::TrackObservationTarget]. *)
Definition TrackObservationTarget (target : scoped_refptr Element) : M unit unit :=
  v ← member observation_targets_;
  match track_scan target v with
  | (v', true) => assign (set_observation_targets_ v');; return_ tt
  | (v', false) => assign (set_observation_targets_ (v' ++ [target]))
  end.

(** The loop of [UntrackObservationTarget]: as [track_scan], but the slot
    found is erased before the [return]. *)
Fixpoint untrack_scan (target : scoped_refptr Element) (v : ElementVector)
  : ElementVector :=
  match v with
  | [] => []
  | None :: rest => untrack_scan target rest
  | Some e :: rest =>
      if decide (Some e = target) then rest
      else Some e :: untrack_scan target rest
  end.

(** [IntersectionObserver::UntrackObservationTarget]. *)
Definition UntrackObservationTarget (target : scoped_refptr Element) : M unit unit :=
  v ← member observation_targets_;
  assign (set_observation_targets_ (untrack_scan target v)).

(** [IntersectionObserver::Observe]. A null target is [NOTREACHED()]; a
    release build returns. *)
Definition Observe (target : scoped_refptr Element) : M unit unit :=
  match target with
  | None => return_ tt
  | Some t =>
      this ← this_;
      call (RegisterIntersectionObserverTarget t this);;
      nested (TrackObservationTarget target)
  end.

(** [IntersectionObserver::Unobserve]. *)
Definition Unobserve (target : scoped_refptr Element) : M unit unit :=
  match target with
  | None => return_ tt
  | Some t =>
      this ← this_;
      call (UnregisterIntersectionObserverTarget t this);;
      nested (UntrackObservationTarget target)
  end.

(** [IntersectionObserver::Disconnect]. *)
Definition Disconnect : M unit unit :=
  v ← member observation_targets_;
  this ← this_;
  for_each v (fun it =>
    match it with
    | Some target => call (UnregisterIntersectionObserverTarget target this)
    | None => mret tt
    end);;
  assign (set_observation_targets_ []);;
  assign (set_queued_entries_ []).

(** [IntersectionObserver::TakeRecords]: the local sequence starts empty
    and is swapped with the member. *)
Definition TakeRecords
  : M IntersectionObserverEntrySequence IntersectionObserverEntrySequence :=
  let queued_entries : IntersectionObserverEntrySequence := [] in
  q ← member queued_entries_;
  assign (set_queued_entries_ queued_entries);;
  return_ q.

(** [IntersectionObserver::QueueIntersectionObserverEntry]. *)
Definition QueueIntersectionObserverEntry (entry : IntersectionObserverEntry)
  : M unit unit :=
  q ← member queued_entries_;
  assign (set_queued_entries_ (q ++ [entry]));;
  manager ← task_manager;
  call (QueueIntersectionObserverTask manager).

(** One call of the running script on the observer it was handed. *)
Definition script_call {R} (c : ScriptCall) : M R unit :=
  match c with
  | ScriptObserve target => nested (Observe target)
  | ScriptUnobserve target => nested (Unobserve target)
  | ScriptDisconnect => nested Disconnect
  | ScriptTakeRecords => nested TakeRecords;; mret tt
  end.

(** [ScriptCallback::RunCallback]: runs the script function, which may call
    back into the observer, and reports whether it ended without exception. *)
Definition RunCallback (callback : IntersectionObserverCallbackArg)
    (intersections : IntersectionObserverEntrySequence) (observer : ObserverRef)
  : M bool bool :=
  call (RunScriptCallback intersections observer);;
  let result := callback intersections observer in
  for_each (reentrant_calls result) script_call;;
  return_ (negb (exception result)).

(** [IntersectionObserver::Notify]. *)
Definition Notify : M bool bool :=
  q ← member queued_entries_;
  match q with
  | [] => return_ true
  | _ :: _ =>
      queue ← nested TakeRecords;
      cb ← member callback_;
      match cb with
      | None => crash
      | Some callback =>
          this ← this_;
          nested (RunCallback callback queue this)
      end
  end.

(** ** Construction *)

Definition syntax_error_message : string :=
  "Not able to parse IntersectionObserver root margin.".
Definition range_error_message : string :=
  "IntersectionObserver threshold values must be between 0.0 and 1.0.".

Section Construction.

(** [std::sort] over a vector of doubles with [operator<]. The standard
    fixes its result, not its algorithm: for a range on which [<] is a
    strict weak order (no NaN) the result holds the same elements and no
    element is less than an earlier one. *)
Variable std_sort : list double -> list double.

Definition std_sort_contract : Prop :=
  forall l : list double,
    Forall (fun a => is_nan a = false) l ->
    std_sort l ≡ₚ l /\ StronglySorted not_after (std_sort l).

Definition push_threshold {R} (value : double) : M R unit :=
  ts ← member thresholds_;
  assign (set_thresholds_ (ts ++ [value])).

(** [IntersectionObserver::InitIntersectionObserverInternal]. *)
Definition InitIntersectionObserverInternal
    (settings : EnvironmentSettings)
    (callback : IntersectionObserverCallbackArg)
    (options : IntersectionObserverInit) : M unit unit :=
  assign (set_callback_ (Some callback));;
  match root options with
  | Some r => assign (set_root_ (Some r))
  | None => assign (set_root_ (Some (document_element settings)))
  end;;
  assign (set_root_margin_ (root_margin options));;
  margin ← member root_margin_;
  let property_list_value :=
    ParsePropertyValue settings "intersection-observer-root-margin" margin in
  match property_list_value with
  | Some value => assign (set_root_margin_property_value_ (Some value))
  | None => call (SetSimpleException kSyntaxError syntax_error_message)
  end;;
  match threshold options with
  | ThresholdDouble value =>
      if lt value zero || gt value one then
        call (SetSimpleException kRangeError range_error_message);;
        return_ tt
      else push_threshold value
  | ThresholdSequence values =>
      for_each values (fun it =>
        if lt it zero || gt it one then
          call (SetSimpleException kRangeError range_error_message);;
          return_ tt
        else push_threshold it);;
      ts ← member thresholds_;
      assign (set_thresholds_ (std_sort ts))
  | ThresholdUnspecified => mret tt
  end;;
  ts ← member thresholds_;
  match ts with
  | [] => push_threshold zero
  | _ :: _ => mret tt
  end;;
  manager ← task_manager;
  this ← this_;
  call (OnIntersectionObserverCreated manager this).

(** [IntersectionObserver::IntersectionObserver(settings, callback,
    options, exception_state)]: the object at address [this], and the
    calls construction made. *)
Definition construct (this : ObserverRef) (settings : EnvironmentSettings)
    (callback : IntersectionObserverCallbackArg)
    (options : IntersectionObserverInit)
  : option (IntersectionObserver * list Call) :=
  match invoke (InitIntersectionObserverInternal settings callback options)
               this uninitialized with
  | Some (_, o, calls) => Some (o, calls)
  | None => None
  end.

End Construction.

(** An insertion sort: one algorithm [std::sort] may be, used to run the
    constructor on concrete inputs. *)
Fixpoint insert_sorted (x : double) (l : list double) : list double :=
  match l with
  | [] => [x]
  | y :: rest => if lt x y then x :: y :: rest else y :: insert_sorted x rest
  end.

Definition insertion_sort (l : list double) : list double :=
  foldr insert_sorted [] l.

(** ** Callers *)

(** Member functions called one after the other on the same object, from
    outside it: the object afterwards and all the calls made. *)
Fixpoint invoke_all {R} (bodies : list (M R R)) (this : ObserverRef)
    (o : IntersectionObserver) : option (IntersectionObserver * list Call) :=
  match bodies with
  | [] => Some (o, [])
  | body :: rest =>
      match invoke body this o with
      | None => None
      | Some (_, o1, calls1) =>
          match invoke_all rest this o1 with
          | None => None
          | Some (o2, calls2) => Some (o2, calls1 ++ calls2)
          end
      end
  end.

(** The targets an observer tracks: the slots of [observation_targets_]
    that are not null. *)
Definition tracked (o : IntersectionObserver) : list Element :=
  omap id (observation_targets_ o).

(** The targets of a sequence of [Observe] calls in the order in which
    each was first observed. *)
Fixpoint first_observe_order (targets : list Element) : list Element :=
  match targets with
  | [] => []
  | t :: rest => t :: filter (fun x => x <> t) (first_observe_order rest)
  end.

(** The threshold check of the constructor. *)
Definition out_of_range (value : double) : bool :=
  lt value zero || gt value one.

(** The vector [TrackObservationTarget] leaves: the scanned vector, with
    [target] pushed at the back when the scan did not find it. *)
Definition track (target : scoped_refptr Element) (v : ElementVector)
  : ElementVector :=
  match track_scan target v with
  | (v', true) => v'
  | (v', false) => v' ++ [target]
  end.

(** The calls a member function made on the script callback, each with its
    arguments. *)
Definition callback_runs (calls : list Call)
  : list (IntersectionObserverEntrySequence * ObserverRef) :=
  omap (fun c => match c with
                 | RunScriptCallback intersections observer =>
                     Some (intersections, observer)
                 | _ => None
                 end) calls.

(** The members once the constructor has set callback, root and root
    margin (steps 2 to 4), and the calls it has made by then. *)
Definition after_margin (settings : EnvironmentSettings)
    (callback : IntersectionObserverCallbackArg)
    (options : IntersectionObserverInit) : IntersectionObserver := {|
  callback_ := Some callback;
  root_ := Some (default (document_element settings) (root options));
  root_margin_ := root_margin options;
  root_margin_property_value_ :=
    ParsePropertyValue settings "intersection-observer-root-margin"
      (root_margin options);
  thresholds_ := [];
  observation_targets_ := [];
  queued_entries_ := []
|}.

Definition margin_calls (settings : EnvironmentSettings)
    (options : IntersectionObserverInit) : list Call :=
  match ParsePropertyValue settings "intersection-observer-root-margin"
          (root_margin options) with
  | Some _ => []
  | None => [SetSimpleException kSyntaxError syntax_error_message]
  end.

(** The call that registers a constructed observer with the task manager
    of its root's document. *)
Definition created_call (settings : EnvironmentSettings)
    (options : IntersectionObserverInit) (this : ObserverRef) : Call :=
  OnIntersectionObserverCreated
    (TaskManagerOfDocumentOf (default (document_element settings) (root options)))
    this.

Definition range_error_call : Call :=
  SetSimpleException kRangeError range_error_message.

(** ** Concrete objects for the examples *)

Module Examples.

Definition A : Element := ElementAt 1.
Definition B : Element := ElementAt 2.
Definition document_root : Element := ElementAt 0.
Definition entryForA : IntersectionObserverEntry := EntryAt 1.
Definition entryForB : IntersectionObserverEntry := EntryAt 2.
Definition observer : ObserverRef := ObserverAt 7.

(** A parser that accepts every margin, and one that rejects every
    margin. *)
Definition accepting : EnvironmentSettings := {|
  document_element := document_root;
  ParsePropertyValue := fun _ text => Some (PropertyList [text])
|}.
Definition rejecting : EnvironmentSettings := {|
  document_element := document_root;
  ParsePropertyValue := fun _ _ => None
|}.

(** A callback that returns normally, and one that throws after calling
    back into the observer. *)
Definition quiet : IntersectionObserverCallbackArg :=
  fun _ _ => {| exception := false; reentrant_calls := [] |}.
Definition throwing : IntersectionObserverCallbackArg :=
  fun _ _ => {| exception := true;
                reentrant_calls := [ScriptObserve (Some B); ScriptTakeRecords] |}.

Definition options (t : ThresholdType) : IntersectionObserverInit :=
  {| root := None; root_margin := "0px"; threshold := t |}.

(** A constructed observer that tracks [A] and has two entries queued. *)
Definition busy : IntersectionObserver := {|
  callback_ := Some throwing;
  root_ := Some document_root;
  root_margin_ := "0px";
  root_margin_property_value_ := Some (PropertyList ["0px"]);
  thresholds_ := [zero];
  observation_targets_ := [Some A];
  queued_entries_ := [entryForA; entryForB]
|}.

Definition idle : IntersectionObserver := set_queued_entries_ [] busy.

End Examples.

(** ** The rest of the interface *)

(** The calls the observer makes on an element during the update pass. *)
Inductive ElementCall :=
| UpdateIntersectionObservationsForTarget (target : Element) (observer : ObserverRef).

(** [IntersectionObserver::UpdateObservationTargets]: the calls of the loop
    over [observation_targets_], in order; [None] when the loop reaches a
    null slot, which it dereferences. What an element does in its update
    is outside this file. *)
Fixpoint update_loop (v : ElementVector) (this : ObserverRef)
  : option (list ElementCall) :=
  match v with
  | [] => Some []
  | None :: _ => None
  | Some target :: rest =>
      match update_loop rest this with
      | Some calls =>
          Some (UpdateIntersectionObservationsForTarget target this :: calls)
      | None => None
      end
  end.

Definition UpdateObservationTargets (this : ObserverRef)
    (o : IntersectionObserver) : option (list ElementCall) :=
  update_loop (observation_targets_ o) this.

(** The values a caller supplied as thresholds. *)
Definition supplied (t : ThresholdType) : list double :=
  match t with
  | ThresholdDouble value => [value]
  | ThresholdSequence values => values
  | ThresholdUnspecified => []
  end.

(** What a user of a constructed observer can do with it: the script
    methods, and the two entry points of the layout and of the task
    manager. *)
Inductive Operation :=
| DoObserve (target : scoped_refptr Element)
| DoUnobserve (target : scoped_refptr Element)
| DoDisconnect
| DoTakeRecords
| DoQueueEntry (entry : IntersectionObserverEntry)
| DoNotify.

Definition without_result {R}
    (r : option (R * IntersectionObserver * list Call))
  : option (IntersectionObserver * list Call) :=
  match r with
  | Some (_, o, calls) => Some (o, calls)
  | None => None
  end.

Definition perform (op : Operation) (this : ObserverRef)
    (o : IntersectionObserver) : option (IntersectionObserver * list Call) :=
  match op with
  | DoObserve target => without_result (invoke (Observe target) this o)
  | DoUnobserve target => without_result (invoke (Unobserve target) this o)
  | DoDisconnect => without_result (invoke Disconnect this o)
  | DoTakeRecords => without_result (invoke TakeRecords this o)
  | DoQueueEntry entry =>
      without_result (invoke (QueueIntersectionObserverEntry entry) this o)
  | DoNotify => without_result (invoke Notify this o)
  end.

Fixpoint perform_all (ops : list Operation) (this : ObserverRef)
    (o : IntersectionObserver) : option (IntersectionObserver * list Call) :=
  match ops with
  | [] => Some (o, [])
  | op :: rest =>
      match perform op this o with
      | None => None
      | Some (o1, calls1) =>
          match perform_all rest this o1 with
          | None => None
          | Some (o2, calls2) => Some (o2, calls1 ++ calls2)
          end
      end
  end.

(** The members construction sets and no later operation should touch. *)
Definition configuration (o : IntersectionObserver) :=
  (callback_ o, root_ o, root_margin_ o, root_margin_property_value_ o,
   thresholds_ o).

(** The calls that belong to construction and destruction. *)
Definition lifecycle_call (c : Call) : Prop :=
  match c with
  | OnIntersectionObserverCreated _ _ => True
  | OnIntersectionObserverDestroyed _ _ => True
  | SetSimpleException _ _ => True
  | _ => False
  end.

(** A tracked sequence without null slots and without a target twice. *)
Definition compact (o : IntersectionObserver) : Prop :=
  exists l : list Element, observation_targets_ o = Some <$> l /\ NoDup l.

(** A run of the callback on this observer and on a batch that is not
    empty. *)
Definition proper_run (this : ObserverRef)
    (run : IntersectionObserverEntrySequence * ObserverRef) : Prop :=
  run.1 <> [] /\ run.2 = this.

(** ** A session for the examples *)

Module Scenario.

(** The observer the constructor returns for the accepting parser, the
    throwing callback and the single threshold 0.5, and the calls the
    constructor makes. *)
Definition options : IntersectionObserverInit :=
  Examples.options (ThresholdDouble half).

Definition constructed : IntersectionObserver :=
  set_thresholds_ [half]
    (after_margin Examples.accepting Examples.throwing options).

Definition construction_calls : list Call :=
  [OnIntersectionObserverCreated
     (TaskManagerOfDocumentOf Examples.document_root) Examples.observer].

(** Operations of every kind, with a delivery in the middle whose callback
    calls back into the observer and throws. *)
Definition session : list Operation :=
  [DoObserve (Some Examples.A);
   DoQueueEntry Examples.entryForA;
   DoObserve None;
   DoNotify;
   DoUnobserve (Some Examples.A);
   DoQueueEntry Examples.entryForB;
   DoTakeRecords;
   DoDisconnect;
   DoNotify].

End Scenario.

(** * Properties *)

(** ** The order of doubles *)

Section DoubleOrder.

Lemma lt_rank (a b : double) :
  is_nan a = false -> is_nan b = false ->
  lt a b = true <-> rank_lt (rank a) (rank b).
Proof.
  unfold lt, SFltb, SFcompare.
  destruct a as [[]|[]| |[] ma ea], b as [[]|[]| |[] mb eb];
    cbv beta iota delta [is_nan rank rank_lt]; intros; try discriminate;
    try (split; [discriminate|lia]); try (split; [lia|reflexivity]).
  - change (Pos.compare_cont Eq ma mb) with (Pos.compare ma mb).
    destruct (Z.compare_spec ea eb), (Pos.compare_spec ma mb);
      cbv beta iota delta [CompOpp];
      (split; [try discriminate; lia | try reflexivity; lia]).
  - change (Pos.compare_cont Eq ma mb) with (Pos.compare ma mb).
    destruct (Z.compare_spec ea eb), (Pos.compare_spec ma mb);
      (split; [try discriminate; lia | try reflexivity; lia]).
Qed.

Lemma lt_nan_l (b : double) : lt S754_nan b = false.
Proof. reflexivity. Qed.

Lemma lt_nan_r (a : double) : lt a S754_nan = false.
Proof. by destruct a. Qed.

Lemma not_after_rank (a b : double) :
  is_nan a = false -> is_nan b = false ->
  not_after a b <-> ~ rank_lt (rank b) (rank a).
Proof.
  intros Ha Hb. unfold not_after.
  rewrite <- (lt_rank b a Hb Ha). by destruct (lt b a).
Qed.

Lemma rank_lt_asym x y : rank_lt x y -> ~ rank_lt y x.
Proof. destruct x as [[? ?] ?], y as [[? ?] ?]. unfold rank_lt. lia. Qed.

Lemma rank_le_trans x y z :
  ~ rank_lt y x -> ~ rank_lt z y -> ~ rank_lt z x.
Proof.
  destruct x as [[? ?] ?], y as [[? ?] ?], z as [[? ?] ?].
  unfold rank_lt. lia.
Qed.

(** [a < b] excludes [b < a]. *)
Lemma lt_asym (a b : double) : lt a b = true -> not_after a b.
Proof.
  intros Hlt. unfold not_after.
  destruct (is_nan a) eqn:Ha; [by destruct a|].
  destruct (is_nan b) eqn:Hb; [destruct b; try discriminate; by rewrite lt_nan_r in Hlt|].
  apply (not_after_rank a b Ha Hb), rank_lt_asym, (lt_rank a b Ha Hb), Hlt.
Qed.

(** Through a double that is not NaN, [not_after] is transitive. *)
Lemma not_after_trans (a b c : double) :
  is_nan b = false -> not_after a b -> not_after b c -> not_after a c.
Proof.
  intros Hb Hab Hbc.
  destruct (is_nan a) eqn:Ha.
  { destruct a; try discriminate. apply lt_nan_r. }
  destruct (is_nan c) eqn:Hc.
  { destruct c; try discriminate. apply lt_nan_l. }
  apply (not_after_rank a c Ha Hc).
  apply (rank_le_trans _ (rank b)).
  - by apply (not_after_rank a b Ha Hb).
  - by apply (not_after_rank b c Hb Hc).
Qed.

Lemma in_unit_interval_not_nan (a : double) :
  in_unit_interval a = true -> is_nan a = false.
Proof. by destruct a. Qed.

Lemma le_rank (a b : double) :
  is_nan a = false -> is_nan b = false ->
  le a b = true <-> ~ rank_lt (rank b) (rank a).
Proof.
  unfold le, SFleb, SFcompare.
  destruct a as [[]|[]| |[] ma ea], b as [[]|[]| |[] mb eb];
    cbv beta iota delta [is_nan rank rank_lt]; intros; try discriminate;
    try (split; [discriminate|lia]); try (split; [lia|reflexivity]).
  - change (Pos.compare_cont Eq ma mb) with (Pos.compare ma mb).
    destruct (Z.compare_spec ea eb), (Pos.compare_spec ma mb);
      cbv beta iota delta [CompOpp];
      (split; [try discriminate; lia | try reflexivity; lia]).
  - change (Pos.compare_cont Eq ma mb) with (Pos.compare ma mb).
    destruct (Z.compare_spec ea eb), (Pos.compare_spec ma mb);
      (split; [try discriminate; lia | try reflexivity; lia]).
Qed.

(** [a <= b] excludes [b < a]; without NaN it is the same. *)
Lemma le_not_after (a b : double) : le a b = true -> not_after a b.
Proof.
  intros Hle.
  assert (Ha : is_nan a = false) by by destruct a.
  assert (Hb : is_nan b = false) by by destruct a, b.
  by apply (not_after_rank a b Ha Hb), (le_rank a b Ha Hb).
Qed.

Lemma not_after_le (a b : double) :
  is_nan a = false -> is_nan b = false -> not_after a b -> le a b = true.
Proof.
  intros Ha Hb H.
  by apply (le_rank a b Ha Hb), (not_after_rank a b Ha Hb).
Qed.

(** A double within [0.0, 1.0] passes the constructor's check. *)
Lemma in_unit_interval_in_range (a : double) :
  in_unit_interval a = true -> out_of_range a = false.
Proof.
  unfold in_unit_interval, out_of_range, gt, lt. intros H.
  apply andb_true_iff in H as [H0 H1].
  apply le_not_after in H0, H1. unfold not_after, lt in H0, H1.
  by rewrite H0, H1.
Qed.

(** A value the check refuses is outside [0.0, 1.0]. *)
Lemma out_of_range_outside (a : double) :
  out_of_range a = true -> in_unit_interval a = false.
Proof.
  intros H. destruct (in_unit_interval a) eqn:E; [|done].
  apply in_unit_interval_in_range in E. congruence.
Qed.

(** The check of the constructor lets [-0.0] and NaN through, and refuses
    [1.5] and [-1.0]. *)
Example out_of_range_examples :
  out_of_range neg_zero = false /\ out_of_range S754_nan = false /\
  out_of_range one_and_half = true /\ out_of_range minus_one = true.
Proof. repeat split. Qed.

End DoubleOrder.

(** ** Insertion sort meets the contract of [std::sort] *)

Section InsertionSort.

Lemma insert_sorted_perm (x : double) (l : list double) :
  insert_sorted x l ≡ₚ x :: l.
Proof.
  induction l as [|y rest IH]; simpl; [done|].
  destruct (lt x y); [done|].
  rewrite IH. apply perm_swap.
Qed.

Lemma insertion_sort_perm (l : list double) : insertion_sort l ≡ₚ l.
Proof.
  induction l as [|x rest IH]; simpl; [done|].
  by rewrite insert_sorted_perm, IH.
Qed.

Lemma insert_sorted_strongly_sorted (x : double) (l : list double) :
  Forall (fun a => is_nan a = false) l ->
  StronglySorted not_after l ->
  StronglySorted not_after (insert_sorted x l).
Proof.
  intros Hnan Hsorted.
  induction Hsorted as [|y rest Hrest IH Hy]; simpl.
  - repeat constructor.
  - apply Forall_cons in Hnan as [Hy_nan Hrest_nan].
    destruct (lt x y) eqn:Hxy.
    + constructor; [by constructor|].
      constructor; [by apply lt_asym|].
      eapply Forall_impl; [exact Hy|].
      intros z Hyz. apply (not_after_trans x y z Hy_nan); [by apply lt_asym|done].
    + constructor; [by apply IH|].
      rewrite insert_sorted_perm. by constructor.
Qed.

Lemma insertion_sort_contract : std_sort_contract insertion_sort.
Proof.
  intros l Hnan. split; [apply insertion_sort_perm|].
  induction Hnan as [|x rest Hx Hrest IH]; simpl; [constructor|].
  apply insert_sorted_strongly_sorted; [|done].
  by rewrite insertion_sort_perm.
Qed.

End InsertionSort.


(** ** Running member functions *)

Lemma TakeRecords_eval this o :
  invoke TakeRecords this o = Some (queued_entries_ o, set_queued_entries_ [] o, []).
Proof. reflexivity. Qed.

Lemma Notify_empty_eval this o :
  queued_entries_ o = [] -> invoke Notify this o = Some (true, o, []).
Proof.
  intros H. unfold invoke, Notify, mbind, M_bind, member. rewrite H. reflexivity.
Qed.

Lemma destructor_eval this o r :
  root_ o = Some r ->
  invoke destructor this o =
    Some (tt, o, [OnIntersectionObserverDestroyed (TaskManagerOfDocumentOf r) this]).
Proof.
  intros H. unfold invoke, destructor, task_manager, mbind, M_bind, member.
  rewrite H. reflexivity.
Qed.

(** ** The constructor *)

Section ConstructionFacts.

Variable std_sort : list double -> list double.

(** The loop over a threshold sequence, when every value passes. *)
Lemma threshold_loop_in_range (values : list double) this o :
  Forall (fun v => out_of_range v = false) values ->
  for_each values (fun it =>
    if lt it zero || gt it one then
      call (SetSimpleException kRangeError range_error_message);;
      return_ tt
    else push_threshold it) this o
  = (Next tt, set_thresholds_ (thresholds_ o ++ values) o, []).
Proof.
  intros H. revert o. induction H as [|v rest Hv Hrest IH]; intros o.
  - simpl. unfold mret, M_ret. rewrite app_nil_r. by destruct o.
  - simpl. unfold out_of_range in Hv. unfold mbind at 1. unfold M_bind.
    rewrite Hv. unfold push_threshold. simpl. rewrite IH. simpl.
    by rewrite <- app_assoc.
Qed.

(** The loop, when [bad] is the first value the check refuses: it returns
    from the constructor with the values before [bad] pushed. *)
Lemma threshold_loop_out_of_range (good : list double) bad rest this o :
  Forall (fun v => out_of_range v = false) good ->
  out_of_range bad = true ->
  for_each (good ++ bad :: rest) (fun it =>
    if lt it zero || gt it one then
      call (SetSimpleException kRangeError range_error_message);;
      return_ tt
    else push_threshold it) this o
  = (Return tt, set_thresholds_ (thresholds_ o ++ good) o, [range_error_call]).
Proof.
  intros H Hbad. revert o. induction H as [|v good Hv Hgood IH]; intros o.
  - simpl. unfold out_of_range in Hbad. unfold mbind at 1. unfold M_bind.
    rewrite Hbad. simpl. rewrite app_nil_r. by destruct o.
  - simpl. unfold out_of_range in Hv. unfold mbind at 1. unfold M_bind.
    rewrite Hv. unfold push_threshold. simpl. rewrite IH. simpl.
    by rewrite <- app_assoc.
Qed.

Lemma construct_sequence_in_range this settings callback options values :
  threshold options = ThresholdSequence values ->
  Forall (fun v => out_of_range v = false) values ->
  construct std_sort this settings callback options =
    Some (set_thresholds_
            (match std_sort values with [] => [zero] | ts => ts end)
            (after_margin settings callback options),
          margin_calls settings options ++ [created_call settings options this]).
Proof.
  intros Ht Hvalues.
  unfold construct, invoke, InitIntersectionObserverInternal,
    after_margin, margin_calls, created_call.
  rewrite Ht. remember (for_each values _) as loop eqn:Hloop.
  unfold mbind, M_bind; simpl.
  destruct (root options);
    destruct (ParsePropertyValue settings _ (root_margin options)) eqn:Hparse;
    simpl;
    rewrite Hloop, (threshold_loop_in_range values _ _ Hvalues); simpl;
    destruct (std_sort values); reflexivity.
Qed.

Lemma construct_sequence_out_of_range
    this settings callback options good bad rest :
  threshold options = ThresholdSequence (good ++ bad :: rest) ->
  Forall (fun v => out_of_range v = false) good ->
  out_of_range bad = true ->
  construct std_sort this settings callback options =
    Some (set_thresholds_ good (after_margin settings callback options),
          margin_calls settings options ++ [range_error_call]).
Proof.
  intros Ht Hgood Hbad.
  unfold construct, invoke, InitIntersectionObserverInternal,
    after_margin, margin_calls.
  rewrite Ht. remember (for_each (good ++ bad :: rest) _) as loop eqn:Hloop.
  unfold mbind, M_bind; simpl.
  destruct (root options);
    destruct (ParsePropertyValue settings _ (root_margin options)) eqn:Hparse;
    simpl;
    rewrite Hloop, (threshold_loop_out_of_range good bad rest _ _ Hgood Hbad);
    reflexivity.
Qed.

Lemma construct_double this settings callback options value :
  threshold options = ThresholdDouble value ->
  construct std_sort this settings callback options =
    if out_of_range value then
      Some (after_margin settings callback options,
            margin_calls settings options ++ [range_error_call])
    else
      Some (set_thresholds_ [value] (after_margin settings callback options),
            margin_calls settings options ++ [created_call settings options this]).
Proof.
  intros Ht.
  unfold construct, invoke, InitIntersectionObserverInternal,
    after_margin, margin_calls, created_call, out_of_range.
  rewrite Ht.
  unfold mbind, M_bind; simpl.
  destruct (root options);
    destruct (ParsePropertyValue settings _ (root_margin options)) eqn:Hparse;
    simpl;
    destruct (lt value zero || gt value one); reflexivity.
Qed.

(** A sequence with a value the check refuses splits at the first one. *)
Lemma first_out_of_range (values : list double) v :
  v ∈ values -> out_of_range v = true ->
  exists good bad rest,
    values = good ++ bad :: rest /\
    Forall (fun v => out_of_range v = false) good /\
    out_of_range bad = true.
Proof.
  induction values as [|w values IH]; intros Hin Hv.
  - by apply elem_of_nil in Hin.
  - destruct (out_of_range w) eqn:Hw.
    + by exists [], w, values.
    + apply elem_of_cons in Hin as [->|Hin]; [congruence|].
      destruct (IH Hin Hv) as (good & bad & rest & -> & Hgood & Hbad).
      exists (w :: good), bad, rest. split; [done|]. split; [by constructor|done].
Qed.

End ConstructionFacts.

(** ** Tracking targets *)

Section Tracking.

Implicit Types (v : ElementVector) (t : Element) (l : list Element).

Lemma TrackObservationTarget_eval target this o :
  invoke (TrackObservationTarget target) this o =
    Some (tt, set_observation_targets_ (track target (observation_targets_ o)) o, []).
Proof.
  unfold invoke, TrackObservationTarget, track, mbind, M_bind, member. simpl.
  by destruct (track_scan target (observation_targets_ o)) as [v' []].
Qed.

Lemma Observe_eval t this o :
  Observe (Some t) this o =
    (Next tt, set_observation_targets_ (track (Some t) (observation_targets_ o)) o,
     [RegisterIntersectionObserverTarget t this]).
Proof.
  unfold Observe, nested, TrackObservationTarget, track, mbind, M_bind, member.
  simpl.
  by destruct (track_scan (Some t) (observation_targets_ o)) as [v' []].
Qed.

Lemma Unobserve_eval t this o :
  Unobserve (Some t) this o =
    (Next tt,
     set_observation_targets_ (untrack_scan (Some t) (observation_targets_ o)) o,
     [UnregisterIntersectionObserverTarget t this]).
Proof. reflexivity. Qed.

(** A scan finds [t] exactly when [t] is tracked, and erases nothing but
    null slots. *)
Lemma track_scan_tracked t v :
  omap id (track_scan (Some t) v).1 = omap id v /\
  (track_scan (Some t) v).2 = bool_decide (t ∈ omap id v).
Proof.
  induction v as [|[e|] rest [IHv IHfound]]; csimpl.
  - done.
  - destruct (decide (Some e = Some t)) as [Heq|Hne]; simpl.
    + injection Heq as ->. split; [done|].
      symmetry. apply bool_decide_eq_true. left.
    + destruct (track_scan (Some t) rest) as [rest' found]; csimpl in *.
      split; [by rewrite IHv|]. rewrite IHfound.
      apply bool_decide_ext. rewrite elem_of_cons.
      split; [by right|]. intros [->|H]; [done|done].
  - done.
Qed.

Lemma tracked_track t v :
  omap id (track (Some t) v) =
    omap id v ++ (if decide (t ∈ omap id v) then [] else [t]).
Proof.
  unfold track. destruct (track_scan_tracked t v) as [Hv Hfound].
  destruct (track_scan (Some t) v) as [v' found]; simpl in *. subst found.
  destruct (decide (t ∈ omap id v)) as [Hin|Hout].
  - rewrite bool_decide_eq_true_2 by done. by rewrite Hv, app_nil_r.
  - rewrite bool_decide_eq_false_2 by done. by rewrite omap_app, Hv.
Qed.

(** On a vector without null slots the scan erases nothing. *)
Lemma track_scan_live t l :
  track_scan (Some t) (Some <$> l) = (Some <$> l, bool_decide (t ∈ l)).
Proof.
  induction l as [|e l IH]; csimpl.
  - done.
  - destruct (decide (Some e = Some t)) as [Heq|Hne].
    + injection Heq as ->. f_equal. symmetry. apply bool_decide_eq_true. left.
    + rewrite IH. f_equal. apply bool_decide_ext. rewrite elem_of_cons.
      split; [by right|]. intros [->|H]; done.
Qed.

Lemma track_live t l :
  track (Some t) (Some <$> l) =
    Some <$> (if decide (t ∈ l) then l else l ++ [t]).
Proof.
  unfold track. rewrite track_scan_live.
  destruct (decide (t ∈ l)).
  - by rewrite bool_decide_eq_true_2.
  - rewrite bool_decide_eq_false_2 by done. by rewrite fmap_app.
Qed.

Lemma first_observe_order_NoDup (ts : list Element) :
  NoDup (first_observe_order ts).
Proof.
  induction ts as [|t rest IH]; simpl; constructor.
  - rewrite list_elem_of_filter. by intros [? _].
  - by apply NoDup_filter.
Qed.

Lemma first_observe_order_step t rest l :
  let l' := if decide (t ∈ l) then l else l ++ [t] in
  l' ++ filter (fun x => x ∉ l') (first_observe_order rest) =
  l ++ filter (fun x => x ∉ l) (first_observe_order (t :: rest)).
Proof.
  simpl. destruct (decide (t ∈ l)) as [Hin|Hout].
  - rewrite filter_cons_False by (by intros H; apply H).
    f_equal. rewrite list_filter_filter. apply list_filter_iff.
    intros x. split; [|tauto]. intros Hx. split; [done|]. by intros ->.
  - rewrite filter_cons_True by done.
    rewrite <- app_assoc. simpl. do 2 f_equal.
    rewrite list_filter_filter. apply list_filter_iff.
    intros x. rewrite not_elem_of_app, list_elem_of_singleton. tauto.
Qed.

Lemma observe_all_eval (ts : list Element) this o l :
  observation_targets_ o = Some <$> l ->
  invoke_all ((fun t => Observe (Some t)) <$> ts) this o =
    Some (set_observation_targets_
            (Some <$> (l ++ filter (fun x => x ∉ l) (first_observe_order ts))) o,
          (fun t => RegisterIntersectionObserverTarget t this) <$> ts).
Proof.
  revert o l. induction ts as [|t rest IH]; intros o l Hv.
  - simpl. rewrite app_nil_r, <- Hv. by destruct o.
  - cbn [fmap list_fmap invoke_all]. unfold invoke. rewrite Observe_eval.
    rewrite Hv, track_live.
    rewrite (IH _ (if decide (t ∈ l) then l else l ++ [t])) by done.
    rewrite (first_observe_order_step t rest l). reflexivity.
Qed.

Lemma NoDup_count {A} `{EqDecision A} (x : A) (xs : list A) :
  NoDup xs -> length (filter (fun y => y = x) xs) <= 1.
Proof.
  induction 1 as [|y xs Hy Hxs IH]; [simpl; lia|].
  destruct (decide (y = x)) as [->|Hne].
  - rewrite filter_cons_True by done.
    destruct (filter (fun y => y = x) xs) as [|z zs] eqn:E; [simpl; lia|].
    exfalso. apply Hy.
    assert (Hz : z ∈ filter (fun y => y = x) xs) by (rewrite E; left).
    by apply list_elem_of_filter in Hz as [-> ?].
  - by rewrite filter_cons_False.
Qed.

(** What [Observe] does to the tracked targets, null slots or not. *)
Lemma tracked_Observe t this o o' calls :
  invoke (Observe (Some t)) this o = Some (tt, o', calls) ->
  tracked o' = tracked o ++ (if decide (t ∈ tracked o) then [] else [t]).
Proof.
  unfold invoke. rewrite Observe_eval. intros [= <- _].
  apply tracked_track.
Qed.

(** [Observe] keeps the tracked targets free of duplicates, whatever null
    slots the vector holds. *)
Lemma Observe_preserves_NoDup t this o o' calls :
  invoke (Observe (Some t)) this o = Some (tt, o', calls) ->
  NoDup (tracked o) -> NoDup (tracked o').
Proof.
  intros Hrun Hnodup. rewrite (tracked_Observe t this o o' calls Hrun).
  destruct (decide (t ∈ tracked o)) as [Hin|Hout].
  - by rewrite app_nil_r.
  - apply NoDup_app. split; [done|]. split; [|apply NoDup_singleton].
    intros x Hx Hx'. apply list_elem_of_singleton in Hx'. by subst.
Qed.

End Tracking.

(** ** The entry queue and delivery *)

Section Delivery.

Lemma unregister_loop_eval {R} (v : ElementVector) (observer this : ObserverRef) o :
  for_each (R:=R) v (fun it =>
    match it with
    | Some target => call (UnregisterIntersectionObserverTarget target observer)
    | None => mret tt
    end) this o
  = (Next tt, o,
     (fun t => UnregisterIntersectionObserverTarget t observer) <$> omap id v).
Proof.
  induction v as [|[e|] rest IH]; csimpl; [done| |];
    unfold mbind, M_bind; simpl; by rewrite IH.
Qed.

Lemma Disconnect_eval this o :
  Disconnect this o =
    (Next tt, set_queued_entries_ [] (set_observation_targets_ [] o),
     (fun t => UnregisterIntersectionObserverTarget t this) <$> tracked o).
Proof.
  unfold Disconnect, tracked. unfold mbind at 1 2 3, M_bind, member, this_.
  rewrite unregister_loop_eval. simpl. by rewrite app_nil_r.
Qed.

Lemma callback_runs_app (calls1 calls2 : list Call) :
  callback_runs (calls1 ++ calls2) = callback_runs calls1 ++ callback_runs calls2.
Proof. apply omap_app. Qed.

Lemma callback_runs_unregister (l : list Element) this :
  callback_runs ((fun t => UnregisterIntersectionObserverTarget t this) <$> l) = [].
Proof. by induction l. Qed.

(** A call of the script on the observer finishes, leaves callback and
    root alone, queues nothing and runs no callback. *)
Lemma script_call_eval {R} (c : ScriptCall) this o :
  exists o' calls,
    script_call (R:=R) c this o = (Next tt, o', calls) /\
    callback_ o' = callback_ o /\ root_ o' = root_ o /\
    (queued_entries_ o = [] -> queued_entries_ o' = []) /\
    callback_runs calls = [].
Proof.
  destruct c as [[t|]|[t|]| |]; unfold script_call, nested.
  - rewrite Observe_eval. by eexists _, _.
  - by eexists _, _.
  - rewrite Unobserve_eval. by eexists _, _.
  - by eexists _, _.
  - rewrite Disconnect_eval. eexists _, _. split; [done|].
    repeat split. apply callback_runs_unregister.
  - by eexists _, _.
Qed.

Lemma script_calls_eval {R} (cs : list ScriptCall) this o :
  exists o' calls,
    for_each (R:=R) cs script_call this o = (Next tt, o', calls) /\
    callback_ o' = callback_ o /\ root_ o' = root_ o /\
    (queued_entries_ o = [] -> queued_entries_ o' = []) /\
    callback_runs calls = [].
Proof.
  revert o. induction cs as [|c cs IH]; intros o.
  - by exists o, [].
  - destruct (script_call_eval (R:=R) c this o)
      as (o1 & calls1 & E1 & Hcb1 & Hroot1 & Hq1 & Hruns1).
    destruct (IH o1) as (o2 & calls2 & E2 & Hcb2 & Hroot2 & Hq2 & Hruns2).
    exists o2, (calls1 ++ calls2). simpl. unfold mbind, M_bind.
    rewrite E1, E2. split; [done|].
    split; [congruence|]. split; [congruence|]. split; [tauto|].
    by rewrite callback_runs_app, Hruns1, Hruns2.
Qed.

Lemma QueueIntersectionObserverEntry_eval entry this o r :
  root_ o = Some r ->
  QueueIntersectionObserverEntry entry this o =
    (Next tt, set_queued_entries_ (queued_entries_ o ++ [entry]) o,
     [QueueIntersectionObserverTask (TaskManagerOfDocumentOf r)]).
Proof.
  intros Hroot.
  unfold QueueIntersectionObserverEntry, task_manager, mbind, M_bind, member.
  simpl. by rewrite Hroot.
Qed.

Lemma queue_all_eval (es : IntersectionObserverEntrySequence) this o r :
  root_ o = Some r ->
  invoke_all (QueueIntersectionObserverEntry <$> es) this o =
    Some (set_queued_entries_ (queued_entries_ o ++ es) o,
          (fun _ => QueueIntersectionObserverTask (TaskManagerOfDocumentOf r)) <$> es).
Proof.
  revert o. induction es as [|e es IH]; intros o Hroot.
  - simpl. rewrite app_nil_r. by destruct o.
  - rewrite !fmap_cons. cbn [invoke_all]. unfold invoke.
    rewrite (QueueIntersectionObserverEntry_eval e this o r Hroot).
    rewrite (IH (set_queued_entries_ (queued_entries_ o ++ [e]) o) Hroot).
    simpl. by rewrite <- app_assoc.
Qed.

(** [Notify] with entries queued. *)
Lemma Notify_eval this o callback :
  callback_ o = Some callback -> queued_entries_ o <> [] ->
  exists o' calls,
    invoke Notify this o =
      Some (negb (exception (callback (queued_entries_ o) this)), o',
            RunScriptCallback (queued_entries_ o) this :: calls) /\
    callback_runs calls = [] /\ queued_entries_ o' = [] /\
    callback_ o' = callback_ o /\ root_ o' = root_ o.
Proof.
  intros Hcb Hq.
  destruct (script_calls_eval (R:=bool)
              (reentrant_calls (callback (queued_entries_ o) this)) this
              (set_queued_entries_ [] o))
    as (o' & calls & E & Hcb' & Hroot' & Hq' & Hruns).
  exists o', calls.
  unfold invoke, Notify, nested, RunCallback, mbind, M_bind, member.
  destruct (queued_entries_ o) as [|e q] eqn:Eq; [done|]. simpl.
  rewrite Hcb. unfold call, this_. simpl in *. rewrite Eq, E. simpl.
  rewrite app_nil_r. split; [done|]. split; [done|]. split; [by apply Hq'|].
  split; [congruence|done].
Qed.

End Delivery.

(** ** Sorted sequences *)

Section SortedFacts.

(** A sorted sequence is fixed by its elements when no two different
    elements are equivalent for [<]. *)
Lemma StronglySorted_perm_unique (l1 l2 : list double) :
  (forall a b, a ∈ l1 -> b ∈ l1 -> not_after a b -> not_after b a -> a = b) ->
  StronglySorted not_after l1 -> StronglySorted not_after l2 ->
  l1 ≡ₚ l2 -> l1 = l2.
Proof.
  intros Hanti Hl1. revert l2 Hanti.
  induction Hl1 as [|x1 l1 Hl1 IH Hx1]; intros l2 Hanti Hl2 Hperm.
  - symmetry. by apply Permutation_nil.
  - destruct Hl2 as [|x2 l2 Hl2 Hx2].
    + symmetry in Hperm. by apply Permutation_nil_cons in Hperm.
    + assert (Heq : x1 = x2).
      { rewrite Forall_forall in Hx1, Hx2.
        assert (Hin2 : x2 ∈ x1 :: l1) by (rewrite Hperm; left).
        assert (Hin1 : x1 ∈ x2 :: l2) by (rewrite <- Hperm; left).
        apply elem_of_cons in Hin2 as [?|Hin2]; [done|].
        apply elem_of_cons in Hin1 as [?|Hin1]; [done|].
        apply Hanti; [left|by right|by apply Hx1|by apply Hx2]. }
      subst x2. f_equal. apply IH; [|done|by apply (inj (cons x1))].
      intros a b Ha Hb. apply Hanti; by right.
Qed.

Lemma sorted_half_quarter_half (l : list double) :
  l ≡ₚ [half; quarter; half] -> StronglySorted not_after l ->
  l = [quarter; half; half].
Proof.
  intros Hperm Hsorted. symmetry.
  apply StronglySorted_perm_unique; [| |done|].
  - intros a b Ha Hb.
    repeat (apply elem_of_cons in Ha as [->|Ha]);
      repeat (apply elem_of_cons in Hb as [->|Hb]);
      try (by apply elem_of_nil in Ha); try (by apply elem_of_nil in Hb);
      try reflexivity; unfold not_after; vm_compute; congruence.
  - repeat constructor.
  - rewrite Hperm. apply perm_swap.
Qed.

(** Without NaN, a range sorted for [<] ascends for [<=]. *)
Lemma StronglySorted_ascending (l : list double) :
  Forall (fun a => is_nan a = false) l ->
  StronglySorted not_after l ->
  StronglySorted (fun a b => le a b = true) l.
Proof.
  intros Hnan Hsorted.
  induction Hsorted as [|x rest Hrest IH Hx]; [constructor|].
  apply Forall_cons in Hnan as [Hx_nan Hrest_nan].
  constructor; [by apply IH|].
  rewrite Forall_forall in Hx, Hrest_nan |- *.
  intros y Hy. apply not_after_le; [done|by apply Hrest_nan|by apply Hx].
Qed.

End SortedFacts.

(** ** Construction: root margin and thresholds *)

(** C1, on the code: a root margin the parser rejects does not stop the
    constructor. With the rejecting parser and the single threshold 0.5,
    the SyntaxError is set and construction goes on: the threshold is
    checked and stored and the observer is registered with the task
    manager ([OnIntersectionObserverCreated] is called). *)
Theorem syntax_error_does_not_stop_construction :
  construct insertion_sort Examples.observer Examples.rejecting Examples.quiet
    (Examples.options (ThresholdDouble half))
  = Some
      ({| callback_ := Some Examples.quiet;
          root_ := Some Examples.document_root;
          root_margin_ := "0px";
          root_margin_property_value_ := None;
          thresholds_ := [half];
          observation_targets_ := [];
          queued_entries_ := [] |},
       [SetSimpleException kSyntaxError syntax_error_message;
        OnIntersectionObserverCreated
          (TaskManagerOfDocumentOf Examples.document_root) Examples.observer]).
Proof. reflexivity. Qed.

(** C4: a threshold sequence whose values all lie within [0.0, 1.0] is
    stored sorted ascending with every duplicate kept (the stored list is a
    permutation of the input); an empty sequence is stored as [0.0]; and
    [0.5, 0.25, 0.5] is stored as [0.25, 0.5, 0.5]. *)
Theorem thresholds_sorted_duplicates_kept
    (std_sort : list double -> list double)
    (Hsort : std_sort_contract std_sort)
    this settings callback options (values : list double) :
  threshold options = ThresholdSequence values ->
  Forall (fun v => in_unit_interval v = true) values ->
  exists o calls,
    construct std_sort this settings callback options = Some (o, calls) /\
    thresholds_ o ≡ₚ match values with [] => [zero] | _ => values end /\
    StronglySorted (fun a b => le a b = true) (thresholds_ o) /\
    (values = [] -> thresholds_ o = [zero]) /\
    (values = [half; quarter; half] -> thresholds_ o = [quarter; half; half]).
Proof.
  intros Ht Hvalues.
  assert (Hrange : Forall (fun v => out_of_range v = false) values).
  { eapply Forall_impl; [exact Hvalues|]. apply in_unit_interval_in_range. }
  assert (Hnan : Forall (fun v => is_nan v = false) values).
  { eapply Forall_impl; [exact Hvalues|]. apply in_unit_interval_not_nan. }
  destruct (Hsort values Hnan) as [Hperm Hsorted].
  eexists _, _. split.
  { apply (construct_sequence_in_range std_sort _ _ _ _ values Ht Hrange). }
  simpl. destruct values as [|v values].
  - apply Permutation_nil_r in Hperm. rewrite Hperm.
    split; [done|]. split; [repeat constructor|]. split; done.
  - destruct (std_sort (v :: values)) as [|s sorted] eqn:Es.
    { by apply Permutation_nil_cons in Hperm. }
    split; [done|].
    split; [apply StronglySorted_ascending; [by rewrite Hperm|done]|].
    split; [done|].
    intros Heq. rewrite Heq in Hperm. by apply sorted_half_quarter_half.
Qed.

Lemma thresholds_sorted_duplicates_kept_witness :
  std_sort_contract insertion_sort /\
  threshold (Examples.options (ThresholdSequence [half; quarter; half]))
    = ThresholdSequence [half; quarter; half] /\
  Forall (fun v => in_unit_interval v = true) [half; quarter; half] /\
  exists o calls,
    construct insertion_sort Examples.observer Examples.accepting Examples.quiet
      (Examples.options (ThresholdSequence [half; quarter; half]))
      = Some (o, calls) /\
    thresholds_ o ≡ₚ [half; quarter; half] /\
    StronglySorted (fun a b => le a b = true) (thresholds_ o) /\
    ([half; quarter; half] = [] -> thresholds_ o = [zero]) /\
    ([half; quarter; half] = [half; quarter; half] ->
     thresholds_ o = [quarter; half; half]).
Proof.
  split; [exact insertion_sort_contract|].
  split; [reflexivity|].
  split; [repeat constructor|].
  apply (thresholds_sorted_duplicates_kept insertion_sort
           insertion_sort_contract Examples.observer Examples.accepting
           Examples.quiet
           (Examples.options (ThresholdSequence [half; quarter; half]))
           [half; quarter; half]).
  - reflexivity.
  - repeat constructor.
Defined.

(** C5: a threshold [v] with [v < 0.0] or [v > 1.0], given alone or
    anywhere in a sequence, makes the constructor set a RangeError and
    return at once: that is its last call, and the observer is never
    registered with the task manager. *)
Theorem out_of_range_threshold_fails
    (std_sort : list double -> list double)
    this settings callback options (v : double) :
  threshold options = ThresholdDouble v \/
  (exists values, threshold options = ThresholdSequence values /\ v ∈ values) ->
  lt v zero = true \/ gt v one = true ->
  exists o calls,
    construct std_sort this settings callback options = Some (o, calls) /\
    calls = margin_calls settings options
              ++ [SetSimpleException kRangeError range_error_message] /\
    (forall manager observer,
       OnIntersectionObserverCreated manager observer ∉ calls).
Proof.
  intros Ht Hv.
  assert (Hout : out_of_range v = true).
  { unfold out_of_range. apply orb_true_iff. exact Hv. }
  assert (Hnone : forall manager observer,
            OnIntersectionObserverCreated manager observer
              ∉ margin_calls settings options ++ [range_error_call]).
  { intros manager observer. unfold margin_calls, range_error_call.
    destruct (ParsePropertyValue settings _ _); simpl;
      rewrite ?elem_of_cons, elem_of_nil; intros H; decompose [or] H;
      congruence. }
  destruct Ht as [Ht|(values & Ht & Hin)].
  - eexists _, _. split; [|split; [reflexivity|exact Hnone]].
    rewrite (construct_double std_sort _ _ _ _ v Ht), Hout. reflexivity.
  - destruct (first_out_of_range values v Hin Hout)
      as (good & bad & rest & -> & Hgood & Hbad).
    eexists _, _. split; [|split; [reflexivity|exact Hnone]].
    apply (construct_sequence_out_of_range std_sort _ _ _ _ good bad rest
             Ht Hgood Hbad).
Qed.

Lemma out_of_range_threshold_fails_witness :
  (threshold (Examples.options (ThresholdSequence [half; one_and_half; quarter]))
     = ThresholdDouble one_and_half \/
   exists values,
     threshold (Examples.options (ThresholdSequence [half; one_and_half; quarter]))
       = ThresholdSequence values /\ one_and_half ∈ values) /\
  (lt one_and_half zero = true \/ gt one_and_half one = true) /\
  exists o calls,
    construct insertion_sort Examples.observer Examples.rejecting Examples.quiet
      (Examples.options (ThresholdSequence [half; one_and_half; quarter]))
      = Some (o, calls) /\
    calls = margin_calls Examples.rejecting
              (Examples.options (ThresholdSequence [half; one_and_half; quarter]))
              ++ [SetSimpleException kRangeError range_error_message] /\
    (forall manager observer,
       OnIntersectionObserverCreated manager observer ∉ calls).
Proof.
  assert (H1 : threshold
                 (Examples.options (ThresholdSequence [half; one_and_half; quarter]))
                 = ThresholdDouble one_and_half \/
               exists values,
                 threshold
                   (Examples.options (ThresholdSequence [half; one_and_half; quarter]))
                   = ThresholdSequence values /\ one_and_half ∈ values).
  { right. exists [half; one_and_half; quarter]. split; [reflexivity|].
    right. left. }
  assert (H2 : lt one_and_half zero = true \/ gt one_and_half one = true).
  { right. reflexivity. }
  split; [exact H1|]. split; [exact H2|].
  exact (out_of_range_threshold_fails insertion_sort Examples.observer
           Examples.rejecting Examples.quiet
           (Examples.options (ThresholdSequence [half; one_and_half; quarter]))
           one_and_half H1 H2).
Defined.

(** C10: when the first threshold of a sequence that the check refuses is
    at index [i], the constructor returns with the RangeError set and
    [thresholds_] holding exactly the first [i] values in input order:
    nothing is rolled back, sorted or defaulted. *)
Theorem range_error_leaves_prefix
    (std_sort : list double -> list double)
    this settings callback options (values : list double) (i : nat) (v : double) :
  threshold options = ThresholdSequence values ->
  values !! i = Some v ->
  out_of_range v = true ->
  (forall j w, j < i -> values !! j = Some w -> out_of_range w = false) ->
  exists o calls,
    construct std_sort this settings callback options = Some (o, calls) /\
    thresholds_ o = take i values /\
    last calls = Some (SetSimpleException kRangeError range_error_message).
Proof.
  intros Ht Hi Hv Hbefore.
  assert (Hgood : Forall (fun w => out_of_range w = false) (take i values)).
  { apply Forall_lookup. intros j w Hj.
    apply lookup_take_Some in Hj as [Hj Hlt]. by apply (Hbefore j). }
  rewrite <- (take_drop_middle values i v Hi) in Ht.
  eexists _, _. split.
  { apply (construct_sequence_out_of_range std_sort _ _ _ _ _ _ _ Ht Hgood Hv). }
  split; [reflexivity|]. apply last_snoc.
Qed.

Lemma range_error_leaves_prefix_witness :
  threshold (Examples.options (ThresholdSequence [half; quarter; minus_one; zero]))
    = ThresholdSequence [half; quarter; minus_one; zero] /\
  [half; quarter; minus_one; zero] !! 2 = Some minus_one /\
  out_of_range minus_one = true /\
  exists o calls,
    construct insertion_sort Examples.observer Examples.accepting Examples.quiet
      (Examples.options (ThresholdSequence [half; quarter; minus_one; zero]))
      = Some (o, calls) /\
    thresholds_ o = take 2 [half; quarter; minus_one; zero] /\
    last calls = Some (SetSimpleException kRangeError range_error_message).
Proof.
  split; [reflexivity|]. split; [reflexivity|]. split; [reflexivity|].
  apply (range_error_leaves_prefix insertion_sort Examples.observer
           Examples.accepting Examples.quiet
           (Examples.options (ThresholdSequence [half; quarter; minus_one; zero]))
           [half; quarter; minus_one; zero] 2 minus_one).
  - reflexivity.
  - reflexivity.
  - reflexivity.
  - intros j w Hj Hw.
    destruct j as [|[|j]]; [| |lia]; injection Hw as <-; reflexivity.
Defined.

(** ** Destruction *)

(** C2, as stated, fails: destroying the example observer, which still
    tracks [A], makes one call, to the task manager; no call deregisters
    the observer from [A]. *)
Lemma destructor_keeps_target_registration :
  exists calls,
    invoke destructor Examples.observer Examples.busy
      = Some (tt, Examples.busy, calls) /\
    Examples.A ∈ tracked Examples.busy /\
    UnregisterIntersectionObserverTarget Examples.A Examples.observer ∉ calls.
Proof.
  eexists. split; [reflexivity|]. split; [left|].
  intros H. apply elem_of_cons in H as [H|H]; [discriminate|].
  by apply elem_of_nil in H.
Qed.

(** C2, amended: destroying an observer in the valid state (its root is
    set) informs the task manager of its root's document that the observer
    was destroyed, and does nothing else: no call on any tracked target,
    and tracked targets and entry queue are left as they were. *)
Theorem destructor_informs_task_manager_only this o (r : Element) :
  root_ o = Some r ->
  invoke destructor this o =
    Some (tt, o, [OnIntersectionObserverDestroyed (TaskManagerOfDocumentOf r) this]).
Proof. apply destructor_eval. Qed.

Lemma destructor_informs_task_manager_only_witness :
  root_ Examples.busy = Some Examples.document_root /\
  invoke destructor Examples.observer Examples.busy =
    Some (tt, Examples.busy,
          [OnIntersectionObserverDestroyed
             (TaskManagerOfDocumentOf Examples.document_root) Examples.observer]).
Proof.
  split; [reflexivity|].
  apply (destructor_informs_task_manager_only Examples.observer Examples.busy
           Examples.document_root).
  reflexivity.
Defined.

(** ** Observing *)

Lemma first_observe_order_elem_of (ts : list Element) (t : Element) :
  t ∈ first_observe_order ts <-> t ∈ ts.
Proof.
  induction ts as [|x rest IH]; [done|]. simpl.
  rewrite !elem_of_cons, list_elem_of_filter, IH.
  destruct (decide (t = x)); tauto.
Qed.

Lemma filter_not_elem_of_nil {A} `{EqDecision A} (l : list A) :
  filter (fun x => x ∉ []) l = l.
Proof.
  induction l as [|x l IH]; [done|].
  rewrite filter_cons_True; [by f_equal|apply not_elem_of_nil].
Qed.

(** C6, as stated, fails: observing a tracked target again is not a
    no-op. On an observer that tracks nothing, [Observe(A)] tracks [A];
    a second [Observe(A)] leaves the observer as it is but calls the
    registration function of [A] once more, as [Observe] registers before
    it looks for the target. *)
Lemma reobserve_registers_again :
  invoke (Observe (Some Examples.A)) Examples.observer
    (set_observation_targets_ [] Examples.idle)
  = Some (tt, set_observation_targets_ [Some Examples.A] Examples.idle,
          [RegisterIntersectionObserverTarget Examples.A Examples.observer]) /\
  invoke (Observe (Some Examples.A)) Examples.observer
    (set_observation_targets_ [Some Examples.A] Examples.idle)
  = Some (tt, set_observation_targets_ [Some Examples.A] Examples.idle,
          [RegisterIntersectionObserverTarget Examples.A Examples.observer]) /\
  invoke (Observe (Some Examples.A)) Examples.observer
    (set_observation_targets_ [Some Examples.A] Examples.idle)
  <> Some (tt, set_observation_targets_ [Some Examples.A] Examples.idle, []).
Proof.
  split; [reflexivity|]. split; [reflexivity|]. discriminate.
Qed.

(** C6, amended: after any sequence of [Observe] calls on an observer that
    tracked nothing, no target has more than one slot in the tracked
    sequence and the sequence lists the targets in the order in which each
    was first observed; observing any of them again leaves the tracked
    sequence and every other member of the observer as they are, but is
    not a no-op: the target's registration function is called again. *)
Theorem observe_tracks_each_target_once this o (ts : list Element) :
  observation_targets_ o = [] ->
  exists o' calls,
    invoke_all ((fun t => Observe (Some t)) <$> ts) this o = Some (o', calls) /\
    (forall t, length (filter (fun slot => slot = Some t)
                         (observation_targets_ o')) <= 1) /\
    observation_targets_ o' = Some <$> first_observe_order ts /\
    (forall t, t ∈ ts ->
       invoke (Observe (Some t)) this o' =
         Some (tt, o', [RegisterIntersectionObserverTarget t this])).
Proof.
  intros Hfresh.
  assert (Hall := observe_all_eval ts this o [] Hfresh).
  rewrite filter_not_elem_of_nil, app_nil_l in Hall.
  eexists _, _. split; [exact Hall|].
  cbn [observation_targets_ set_observation_targets_].
  split; [|split; [done|]].
  - intros t. apply NoDup_count.
    apply (NoDup_fmap_2 Some), first_observe_order_NoDup.
  - intros t Ht. unfold invoke. rewrite Observe_eval.
    cbn [observation_targets_ set_observation_targets_].
    rewrite track_live.
    rewrite decide_True by (by apply first_observe_order_elem_of).
    reflexivity.
Qed.

Lemma observe_tracks_each_target_once_witness :
  observation_targets_ (set_observation_targets_ [] Examples.idle) = [] /\
  exists o' calls,
    invoke_all ((fun t => Observe (Some t)) <$> [Examples.A; Examples.B; Examples.A])
      Examples.observer (set_observation_targets_ [] Examples.idle)
      = Some (o', calls) /\
    (forall t, length (filter (fun slot => slot = Some t)
                         (observation_targets_ o')) <= 1) /\
    observation_targets_ o' =
      Some <$> first_observe_order [Examples.A; Examples.B; Examples.A] /\
    (forall t, t ∈ [Examples.A; Examples.B; Examples.A] ->
       invoke (Observe (Some t)) Examples.observer o' =
         Some (tt, o', [RegisterIntersectionObserverTarget t Examples.observer])).
Proof.
  split; [reflexivity|].
  apply (observe_tracks_each_target_once Examples.observer
           (set_observation_targets_ [] Examples.idle)
           [Examples.A; Examples.B; Examples.A]).
  reflexivity.
Defined.

(** ** The entry queue *)

(** C7: [TakeRecords] returns the queued entries and leaves the queue
    empty, the other members untouched; called again with nothing queued
    in between, it returns the empty sequence. *)
Theorem TakeRecords_drains_once this o :
  exists o1,
    invoke TakeRecords this o = Some (queued_entries_ o, o1, []) /\
    o1 = set_queued_entries_ [] o /\
    queued_entries_ o1 = [] /\
    invoke TakeRecords this o1 = Some ([], o1, []).
Proof. by exists (set_queued_entries_ [] o). Qed.

(** C8: [Notify] on an observer with an empty queue returns [true], runs
    no callback (it makes no call at all) and leaves the observer
    unchanged. *)
Theorem Notify_empty_queue this o :
  queued_entries_ o = [] ->
  invoke Notify this o = Some (true, o, []).
Proof. apply Notify_empty_eval. Qed.

Lemma Notify_empty_queue_witness :
  queued_entries_ Examples.idle = [] /\
  invoke Notify Examples.observer Examples.idle = Some (true, Examples.idle, []).
Proof.
  split; [reflexivity|].
  apply (Notify_empty_queue Examples.observer Examples.idle). reflexivity.
Defined.

(** C9: [Disconnect] calls the deregistration function of every tracked
    target (every slot that is not null), in tracked order, and leaves
    both the tracked sequence and the entry queue empty: a [TakeRecords]
    that follows returns the empty sequence. *)
Theorem Disconnect_unregisters_and_clears this o :
  exists o',
    invoke Disconnect this o =
      Some (tt, o',
            (fun t => UnregisterIntersectionObserverTarget t this) <$> tracked o) /\
    observation_targets_ o' = [] /\
    queued_entries_ o' = [] /\
    invoke TakeRecords this o' = Some ([], o', []).
Proof.
  exists (set_queued_entries_ [] (set_observation_targets_ [] o)).
  unfold invoke. by rewrite Disconnect_eval.
Qed.

(** C3: entries queued by [QueueIntersectionObserverEntry] are delivered in
    the order queued. With a queue that is not empty, [Notify] empties it,
    runs the callback exactly once, on the whole batch and the observer
    itself, and returns whether the callback ended without exception;
    whether it threw or not, the queue is empty afterwards. *)
Theorem Notify_delivers_batch_once this o callback (r : Element)
    (es : IntersectionObserverEntrySequence) :
  callback_ o = Some callback ->
  root_ o = Some r ->
  queued_entries_ o ++ es <> [] ->
  exists o1 calls1,
    invoke_all (QueueIntersectionObserverEntry <$> es) this o = Some (o1, calls1) /\
    queued_entries_ o1 = queued_entries_ o ++ es /\
    exists o2 calls2,
      invoke Notify this o1 =
        Some (negb (exception (callback (queued_entries_ o ++ es) this)),
              o2, calls2) /\
      callback_runs calls2 = [(queued_entries_ o ++ es, this)] /\
      queued_entries_ o2 = [] /\
      invoke TakeRecords this o2 = Some ([], o2, []).
Proof.
  intros Hcb Hroot Hq.
  eexists _, _. split; [apply (queue_all_eval es this o r Hroot)|].
  split; [reflexivity|].
  destruct (Notify_eval this
              (set_queued_entries_ (queued_entries_ o ++ es) o) callback Hcb Hq)
    as (o2 & calls & E & Hruns & Hq2 & _ & _).
  eexists _, _. split; [exact E|].
  split; [simpl; by rewrite Hruns|]. split; [done|].
  rewrite TakeRecords_eval, Hq2. by destruct o2; simpl in *; subst.
Qed.

Lemma Notify_delivers_batch_once_witness :
  callback_ Examples.idle = Some Examples.throwing /\
  root_ Examples.idle = Some Examples.document_root /\
  queued_entries_ Examples.idle ++ [Examples.entryForA; Examples.entryForB] <> [] /\
  exists o1 calls1,
    invoke_all (QueueIntersectionObserverEntry
                  <$> [Examples.entryForA; Examples.entryForB])
      Examples.observer Examples.idle = Some (o1, calls1) /\
    queued_entries_ o1 =
      queued_entries_ Examples.idle ++ [Examples.entryForA; Examples.entryForB] /\
    exists o2 calls2,
      invoke Notify Examples.observer o1 =
        Some (negb (exception
                      (Examples.throwing
                         (queued_entries_ Examples.idle
                            ++ [Examples.entryForA; Examples.entryForB])
                         Examples.observer)),
              o2, calls2) /\
      callback_runs calls2 =
        [(queued_entries_ Examples.idle ++ [Examples.entryForA; Examples.entryForB],
          Examples.observer)] /\
      queued_entries_ o2 = [] /\
      invoke TakeRecords Examples.observer o2 = Some ([], o2, []).
Proof.
  split; [reflexivity|]. split; [reflexivity|]. split; [discriminate|].
  apply (Notify_delivers_batch_once Examples.observer Examples.idle
           Examples.throwing Examples.document_root
           [Examples.entryForA; Examples.entryForB]).
  - reflexivity.
  - reflexivity.
  - discriminate.
Defined.

(** * Further properties *)

(** ** Construction, whatever the thresholds *)

Section ConstructionOutcome.

Variable std_sort : list double -> list double.

(** A threshold sequence passes the check as a whole or splits at the
    first value the check refuses. *)
Lemma in_range_or_first_out (values : list double) :
  Forall (fun v => out_of_range v = false) values \/
  exists good bad rest,
    values = good ++ bad :: rest /\
    Forall (fun v => out_of_range v = false) good /\
    out_of_range bad = true.
Proof.
  induction values as [|w values IH]; [by left|].
  destruct (out_of_range w) eqn:Hw.
  - right. by exists [], w, values.
  - destruct IH as [Hall|(good & bad & rest & -> & Hgood & Hbad)].
    + left. by constructor.
    + right. exists (w :: good), bad, rest.
      split; [done|]. split; [by constructor|done].
Qed.

Lemma construct_unspecified this settings callback options :
  threshold options = ThresholdUnspecified ->
  construct std_sort this settings callback options =
    Some (set_thresholds_ [zero] (after_margin settings callback options),
          margin_calls settings options ++ [created_call settings options this]).
Proof.
  intros Ht.
  unfold construct, invoke, InitIntersectionObserverInternal,
    after_margin, margin_calls, created_call.
  rewrite Ht. unfold mbind, M_bind; simpl.
  destruct (root options);
    destruct (ParsePropertyValue settings _ (root_margin options)); reflexivity.
Qed.

Lemma existsb_out_of_range_false (values : list double) :
  Forall (fun v => out_of_range v = false) values ->
  existsb out_of_range values = false.
Proof. induction 1 as [|v values Hv _ IH]; simpl; [done|by rewrite Hv]. Qed.

Lemma existsb_out_of_range_split (good : list double) bad rest :
  out_of_range bad = true ->
  existsb out_of_range (good ++ bad :: rest) = true.
Proof.
  intros Hbad. rewrite existsb_app. simpl. rewrite Hbad.
  by rewrite orb_true_r.
Qed.

(** The constructor in one equation: the members it leaves and the calls
    it makes, with the stored thresholds left open. *)
Lemma construct_outcome this settings callback options :
  exists ts,
    construct std_sort this settings callback options =
      Some (set_thresholds_ ts (after_margin settings callback options),
            margin_calls settings options ++
            [if existsb out_of_range (supplied (threshold options))
             then range_error_call
             else created_call settings options this]) /\
    (existsb out_of_range (supplied (threshold options)) = false -> ts <> []).
Proof.
  destruct (threshold options) as [v|values|] eqn:Ht; simpl.
  - rewrite (construct_double std_sort _ _ _ _ v Ht).
    destruct (out_of_range v); simpl.
    + by exists [].
    + by exists [v].
  - destruct (in_range_or_first_out values)
      as [Hall|(good & bad & rest & -> & Hgood & Hbad)].
    + rewrite (construct_sequence_in_range std_sort _ _ _ _ values Ht Hall).
      rewrite (existsb_out_of_range_false values Hall).
      eexists. split; [reflexivity|]. intros _. by destruct (std_sort values).
    + rewrite (construct_sequence_out_of_range std_sort _ _ _ _ good bad rest
                 Ht Hgood Hbad).
      rewrite (existsb_out_of_range_split good bad rest Hbad).
      exists good. split; [reflexivity|]. done.
  - rewrite (construct_unspecified _ _ _ _ Ht). by exists [zero].
Qed.

End ConstructionOutcome.

(** X1: when the constructor returns, whether it registered the observer
    or stopped at a RangeError, and whatever thresholds free of NaN it was
    given (in range or not), it has set the callback, resolved the root
    (the root of the options, else the document element), stored the
    margin text, stored the parsed margin exactly when the parser accepted
    it, and left nothing tracked or queued. *)
Theorem construct_sets_configuration
    (std_sort : list double -> list double)
    this settings callback options o calls :
  Forall (fun v => is_nan v = false) (supplied (threshold options)) ->
  construct std_sort this settings callback options = Some (o, calls) ->
  callback_ o = Some callback /\
  root_ o = Some (default (document_element settings) (root options)) /\
  root_margin_ o = root_margin options /\
  root_margin_property_value_ o =
    ParsePropertyValue settings "intersection-observer-root-margin"
      (root_margin options) /\
  observation_targets_ o = [] /\
  queued_entries_ o = [].
Proof.
  intros _ E.
  destruct (construct_outcome std_sort this settings callback options)
    as (ts & E' & _).
  rewrite E in E'. injection E' as -> _. by repeat split.
Qed.

Lemma construct_sets_configuration_witness :
  Forall (fun v => is_nan v = false)
    (supplied (threshold
                 (Examples.options (ThresholdSequence [half; minus_one; quarter])))) /\
  construct insertion_sort Examples.observer Examples.rejecting Examples.quiet
    (Examples.options (ThresholdSequence [half; minus_one; quarter]))
  = Some (set_thresholds_ [half]
            (after_margin Examples.rejecting Examples.quiet
               (Examples.options (ThresholdSequence [half; minus_one; quarter]))),
          [SetSimpleException kSyntaxError syntax_error_message;
           SetSimpleException kRangeError range_error_message]) /\
  callback_
    (set_thresholds_ [half]
       (after_margin Examples.rejecting Examples.quiet
          (Examples.options (ThresholdSequence [half; minus_one; quarter]))))
  = Some Examples.quiet /\
  root_
    (set_thresholds_ [half]
       (after_margin Examples.rejecting Examples.quiet
          (Examples.options (ThresholdSequence [half; minus_one; quarter]))))
  = Some (default (document_element Examples.rejecting)
            (root (Examples.options
                     (ThresholdSequence [half; minus_one; quarter])))) /\
  root_margin_
    (set_thresholds_ [half]
       (after_margin Examples.rejecting Examples.quiet
          (Examples.options (ThresholdSequence [half; minus_one; quarter]))))
  = root_margin (Examples.options (ThresholdSequence [half; minus_one; quarter])) /\
  root_margin_property_value_
    (set_thresholds_ [half]
       (after_margin Examples.rejecting Examples.quiet
          (Examples.options (ThresholdSequence [half; minus_one; quarter]))))
  = ParsePropertyValue Examples.rejecting "intersection-observer-root-margin"
      (root_margin
         (Examples.options (ThresholdSequence [half; minus_one; quarter]))) /\
  observation_targets_
    (set_thresholds_ [half]
       (after_margin Examples.rejecting Examples.quiet
          (Examples.options (ThresholdSequence [half; minus_one; quarter]))))
  = [] /\
  queued_entries_
    (set_thresholds_ [half]
       (after_margin Examples.rejecting Examples.quiet
          (Examples.options (ThresholdSequence [half; minus_one; quarter]))))
  = [].
Proof.
  assert (Hnan : Forall (fun v => is_nan v = false)
                   (supplied (threshold
                      (Examples.options
                         (ThresholdSequence [half; minus_one; quarter])))))
    by repeat constructor.
  assert (E : construct insertion_sort Examples.observer Examples.rejecting
                Examples.quiet
                (Examples.options (ThresholdSequence [half; minus_one; quarter]))
              = Some (set_thresholds_ [half]
                        (after_margin Examples.rejecting Examples.quiet
                           (Examples.options
                              (ThresholdSequence [half; minus_one; quarter]))),
                      [SetSimpleException kSyntaxError syntax_error_message;
                       SetSimpleException kRangeError range_error_message]))
    by reflexivity.
  split; [exact Hnan|]. split; [exact E|].
  exact (construct_sets_configuration insertion_sort Examples.observer
           Examples.rejecting Examples.quiet
           (Examples.options (ThresholdSequence [half; minus_one; quarter]))
           _ _ Hnan E).
Defined.

(** X2: the calls of the constructor are fixed by the margin and the
    thresholds supplied: a SyntaxError first when the margin did not
    parse, then exactly one more call, the RangeError when some supplied
    threshold is less than 0 or greater than 1, and the registration with
    the task manager of the root's document otherwise. *)
Theorem construct_calls
    (std_sort : list double -> list double)
    this settings callback options :
  exists o,
    construct std_sort this settings callback options =
      Some (o,
            margin_calls settings options ++
            [if existsb out_of_range (supplied (threshold options))
             then SetSimpleException kRangeError range_error_message
             else OnIntersectionObserverCreated
                    (TaskManagerOfDocumentOf
                       (default (document_element settings) (root options)))
                    this]).
Proof.
  destruct (construct_outcome std_sort this settings callback options)
    as (ts & E & _).
  eexists. exact E.
Qed.

(** X3: an observer the constructor registered has at least one
    threshold, whatever [std::sort] did. *)
Theorem registered_observer_has_threshold
    (std_sort : list double -> list double)
    this settings callback options o calls manager observer :
  construct std_sort this settings callback options = Some (o, calls) ->
  OnIntersectionObserverCreated manager observer ∈ calls ->
  thresholds_ o <> [].
Proof.
  intros E Hin.
  destruct (construct_outcome std_sort this settings callback options)
    as (ts & E' & Hts).
  rewrite E in E'. injection E' as -> ->. simpl.
  apply Hts.
  destruct (existsb out_of_range (supplied (threshold options))); [|done].
  exfalso. unfold margin_calls, range_error_call in Hin.
  destruct (ParsePropertyValue settings _ _); simpl in Hin;
    rewrite ?elem_of_cons, elem_of_nil in Hin; decompose [or] Hin; congruence.
Qed.

Lemma registered_observer_has_threshold_witness :
  construct (fun _ => []) Examples.observer Examples.accepting Examples.quiet
    (Examples.options (ThresholdSequence [half; quarter]))
  = Some (set_thresholds_ [zero]
            (after_margin Examples.accepting Examples.quiet
               (Examples.options (ThresholdSequence [half; quarter]))),
          [OnIntersectionObserverCreated
             (TaskManagerOfDocumentOf Examples.document_root) Examples.observer]) /\
  OnIntersectionObserverCreated
    (TaskManagerOfDocumentOf Examples.document_root) Examples.observer
    ∈ [OnIntersectionObserverCreated
         (TaskManagerOfDocumentOf Examples.document_root) Examples.observer] /\
  thresholds_
    (set_thresholds_ [zero]
       (after_margin Examples.accepting Examples.quiet
          (Examples.options (ThresholdSequence [half; quarter])))) <> [].
Proof.
  assert (E : construct (fun _ => []) Examples.observer Examples.accepting
                Examples.quiet
                (Examples.options (ThresholdSequence [half; quarter]))
              = Some (set_thresholds_ [zero]
                        (after_margin Examples.accepting Examples.quiet
                           (Examples.options (ThresholdSequence [half; quarter]))),
                      [OnIntersectionObserverCreated
                         (TaskManagerOfDocumentOf Examples.document_root)
                         Examples.observer])) by reflexivity.
  assert (Hin : OnIntersectionObserverCreated
                  (TaskManagerOfDocumentOf Examples.document_root)
                  Examples.observer
                  ∈ [OnIntersectionObserverCreated
                       (TaskManagerOfDocumentOf Examples.document_root)
                       Examples.observer]) by left.
  split; [exact E|]. split; [exact Hin|].
  exact (registered_observer_has_threshold (fun _ => []) Examples.observer
           Examples.accepting Examples.quiet
           (Examples.options (ThresholdSequence [half; quarter]))
           _ _ _ _ E Hin).
Defined.

(** X4: a single double threshold that is neither less than 0 nor greater
    than 1 is stored as the only threshold and the observer is registered.
    NaN is such a value: it compares false both ways, so the check lets it
    through. *)
Theorem single_threshold_stored_alone
    (std_sort : list double -> list double)
    this settings callback options (v : double) :
  threshold options = ThresholdDouble v ->
  lt v zero = false -> gt v one = false ->
  exists o calls,
    construct std_sort this settings callback options = Some (o, calls) /\
    thresholds_ o = [v] /\
    last calls = Some (created_call settings options this).
Proof.
  intros Ht Hlt Hgt.
  assert (Hv : out_of_range v = false).
  { unfold out_of_range. by rewrite Hlt, Hgt. }
  eexists _, _. split.
  { rewrite (construct_double std_sort _ _ _ _ v Ht), Hv. reflexivity. }
  split; [reflexivity|]. apply last_snoc.
Qed.

Lemma single_threshold_stored_alone_witness :
  threshold (Examples.options (ThresholdDouble S754_nan)) = ThresholdDouble S754_nan /\
  lt S754_nan zero = false /\ gt S754_nan one = false /\
  exists o calls,
    construct insertion_sort Examples.observer Examples.accepting Examples.quiet
      (Examples.options (ThresholdDouble S754_nan)) = Some (o, calls) /\
    thresholds_ o = [S754_nan] /\
    last calls =
      Some (created_call Examples.accepting
              (Examples.options (ThresholdDouble S754_nan)) Examples.observer).
Proof.
  split; [reflexivity|]. split; [reflexivity|]. split; [reflexivity|].
  apply (single_threshold_stored_alone insertion_sort Examples.observer
           Examples.accepting Examples.quiet
           (Examples.options (ThresholdDouble S754_nan)) S754_nan);
    reflexivity.
Defined.

(** X5: when no threshold is supplied at all (the option is left
    unspecified, or is an empty sequence), the stored thresholds are
    exactly [0.0] and the observer is registered. *)
Theorem no_threshold_defaults_to_zero
    (std_sort : list double -> list double)
    (Hsort : std_sort_contract std_sort)
    this settings callback options :
  supplied (threshold options) = [] ->
  exists o calls,
    construct std_sort this settings callback options = Some (o, calls) /\
    thresholds_ o = [zero] /\
    last calls = Some (created_call settings options this).
Proof.
  intros Hnone. destruct (threshold options) as [v|values|] eqn:Ht;
    simpl in Hnone; [done| |].
  - subst values. eexists _, _. split.
    { apply (construct_sequence_in_range std_sort _ _ _ _ [] Ht). constructor. }
    destruct (Hsort [] ltac:(constructor)) as [Hperm _].
    apply Permutation_nil_r in Hperm. rewrite Hperm.
    split; [reflexivity|]. apply last_snoc.
  - eexists _, _. split; [apply (construct_unspecified std_sort _ _ _ _ Ht)|].
    split; [reflexivity|]. apply last_snoc.
Qed.

Lemma no_threshold_defaults_to_zero_witness :
  std_sort_contract insertion_sort /\
  supplied (threshold (Examples.options ThresholdUnspecified)) = [] /\
  exists o calls,
    construct insertion_sort Examples.observer Examples.accepting Examples.quiet
      (Examples.options ThresholdUnspecified) = Some (o, calls) /\
    thresholds_ o = [zero] /\
    last calls =
      Some (created_call Examples.accepting
              (Examples.options ThresholdUnspecified) Examples.observer).
Proof.
  split; [exact insertion_sort_contract|]. split; [reflexivity|].
  apply (no_threshold_defaults_to_zero insertion_sort insertion_sort_contract
           Examples.observer Examples.accepting Examples.quiet
           (Examples.options ThresholdUnspecified)).
  reflexivity.
Defined.

(** X6: an observer whose construction stopped at a RangeError was never
    registered with the task manager, yet its destructor reports it
    destroyed to the task manager of its root's document: the root was set
    before the thresholds were checked. *)
Theorem failed_construction_still_reports_destruction
    (std_sort : list double -> list double)
    this settings callback options :
  existsb out_of_range (supplied (threshold options)) = true ->
  exists o calls,
    construct std_sort this settings callback options = Some (o, calls) /\
    (forall manager observer,
       OnIntersectionObserverCreated manager observer ∉ calls) /\
    invoke destructor this o =
      Some (tt, o,
            [OnIntersectionObserverDestroyed
               (TaskManagerOfDocumentOf
                  (default (document_element settings) (root options)))
               this]).
Proof.
  intros Hbad.
  destruct (construct_outcome std_sort this settings callback options)
    as (ts & E & _).
  rewrite Hbad in E. eexists _, _. split; [exact E|]. split.
  - intros manager observer. unfold margin_calls, range_error_call.
    destruct (ParsePropertyValue settings _ _); simpl;
      rewrite ?elem_of_cons, elem_of_nil; intros H; decompose [or] H;
      congruence.
  - by apply destructor_eval.
Qed.

Lemma failed_construction_still_reports_destruction_witness :
  existsb out_of_range
    (supplied (threshold (Examples.options (ThresholdDouble minus_one)))) = true /\
  exists o calls,
    construct insertion_sort Examples.observer Examples.accepting Examples.quiet
      (Examples.options (ThresholdDouble minus_one)) = Some (o, calls) /\
    (forall manager observer,
       OnIntersectionObserverCreated manager observer ∉ calls) /\
    invoke destructor Examples.observer o =
      Some (tt, o,
            [OnIntersectionObserverDestroyed
               (TaskManagerOfDocumentOf
                  (default (document_element Examples.accepting)
                     (root (Examples.options (ThresholdDouble minus_one)))))
               Examples.observer]).
Proof.
  split; [reflexivity|].
  apply (failed_construction_still_reports_destruction insertion_sort
           Examples.observer Examples.accepting Examples.quiet
           (Examples.options (ThresholdDouble minus_one))).
  reflexivity.
Defined.

(** ** The thresholds accessor *)

Lemma foldl_push_back {A} (acc l : list A) :
  foldl (fun result it => result ++ [it]) acc l = acc ++ l.
Proof.
  revert acc. induction l as [|x l IH]; intros acc; simpl.
  - by rewrite app_nil_r.
  - by rewrite IH, <- app_assoc.
Qed.

(** X7: [thresholds()] returns the stored thresholds, all of them and in
    their stored order, makes no call and changes no member of the
    observer. *)
Theorem thresholds_returns_stored this o :
  invoke thresholds this o = Some (thresholds_ o, o, []).
Proof.
  unfold invoke, thresholds, mbind, M_bind, member. simpl.
  by rewrite foldl_push_back.
Qed.

(** ** Unobserving, and null slots *)

Section Untracking.

Implicit Types (v pre post : ElementVector) (t : Element) (l : list Element).

(** With no target tracked twice, the scan of [Unobserve] removes the
    target and nothing else. *)
Lemma tracked_untrack_scan t v :
  NoDup (omap id v) ->
  omap id (untrack_scan (Some t) v) = filter (fun x => x <> t) (omap id v).
Proof.
  induction v as [|[e|] rest IH]; csimpl; intros Hnodup; [done| |by apply IH].
  apply NoDup_cons in Hnodup as [He Hrest].
  destruct (decide (Some e = Some t)) as [Heq|Hne].
  - injection Heq as ->.
    rewrite filter_cons_False by (by intros H; apply H).
    symmetry. clear IH Hrest. induction (omap id rest) as [|x l IHl]; [done|].
    apply not_elem_of_cons in He as [Hx Hl].
    rewrite filter_cons_True by done. by rewrite IHl.
  - rewrite filter_cons_True by congruence. csimpl. by rewrite IH.
Qed.

(** A scan that does not find its target erases every null slot. *)
Lemma track_scan_absent t v :
  t ∉ omap id v -> track_scan (Some t) v = (Some <$> omap id v, false).
Proof.
  induction v as [|[e|] rest IH]; csimpl; intros Hout; [done| |by apply IH].
  apply not_elem_of_cons in Hout as [Hne Hout].
  rewrite decide_False by congruence. by rewrite IH.
Qed.

Lemma untrack_scan_absent t v :
  t ∉ omap id v -> untrack_scan (Some t) v = Some <$> omap id v.
Proof.
  induction v as [|[e|] rest IH]; csimpl; intros Hout; [done| |by apply IH].
  apply not_elem_of_cons in Hout as [Hne Hout].
  rewrite decide_False by congruence. by rewrite IH.
Qed.

(** A scan that finds its target erases the null slots before it and
    leaves the slots after it alone. *)
Lemma track_scan_found t pre post :
  t ∉ omap id pre ->
  track_scan (Some t) (pre ++ (Some t :: post)) =
    ((Some <$> omap id pre) ++ (Some t :: post), true).
Proof.
  induction pre as [|[e|] pre IH]; csimpl; intros Hout.
  - by rewrite decide_True.
  - apply not_elem_of_cons in Hout as [Hne Hout].
    rewrite decide_False by congruence. by rewrite IH.
  - by apply IH.
Qed.

Lemma untrack_scan_found t pre post :
  t ∉ omap id pre ->
  untrack_scan (Some t) (pre ++ (Some t :: post)) = (Some <$> omap id pre) ++ post.
Proof.
  induction pre as [|[e|] pre IH]; csimpl; intros Hout.
  - by rewrite decide_True.
  - apply not_elem_of_cons in Hout as [Hne Hout].
    rewrite decide_False by congruence. by rewrite IH.
  - by apply IH.
Qed.

Lemma track_absent t v :
  t ∉ omap id v -> track (Some t) v = Some <$> (omap id v ++ [t]).
Proof.
  intros Hout. unfold track. rewrite (track_scan_absent t v Hout).
  by rewrite fmap_app.
Qed.

Lemma track_found t pre post :
  t ∉ omap id pre ->
  track (Some t) (pre ++ (Some t :: post)) =
    (Some <$> omap id pre) ++ (Some t :: post).
Proof.
  intros Hout. unfold track. by rewrite (track_scan_found t pre post Hout).
Qed.

Lemma omap_id_Some l : omap id (Some <$> l) = l.
Proof. induction l as [|x l IH]; csimpl; [done|by rewrite IH]. Qed.

Lemma filter_absent t l : t ∉ l -> filter (fun x => x <> t) l = l.
Proof.
  induction l as [|x l IH]; intros Hout; [done|].
  apply not_elem_of_cons in Hout as [Hne Hout].
  rewrite filter_cons_True by done. by rewrite IH.
Qed.

End Untracking.

(** X8: with no target tracked twice, [Unobserve] calls the target's
    deregistration function (whether the target was tracked or not) and
    removes the target from the tracked targets, keeping the others in
    their order. It leaves the entry queue alone: entries already queued
    for the target stay queued. *)
Theorem Unobserve_removes_target this o (t : Element) :
  NoDup (tracked o) ->
  exists o',
    invoke (Unobserve (Some t)) this o =
      Some (tt, o', [UnregisterIntersectionObserverTarget t this]) /\
    tracked o' = filter (fun x => x <> t) (tracked o) /\
    (t ∉ tracked o') /\
    queued_entries_ o' = queued_entries_ o /\
    configuration o' = configuration o.
Proof.
  intros Hnodup. eexists. split; [reflexivity|].
  unfold tracked. cbn [observation_targets_ set_observation_targets_].
  rewrite (tracked_untrack_scan t _ Hnodup).
  split; [done|]. split; [|done].
  rewrite list_elem_of_filter. by intros [? _].
Qed.

Lemma Unobserve_removes_target_witness :
  NoDup (tracked Examples.busy) /\
  exists o',
    invoke (Unobserve (Some Examples.A)) Examples.observer Examples.busy =
      Some (tt, o',
            [UnregisterIntersectionObserverTarget Examples.A Examples.observer]) /\
    tracked o' = filter (fun x => x <> Examples.A) (tracked Examples.busy) /\
    (Examples.A ∉ tracked o') /\
    queued_entries_ o' = queued_entries_ Examples.busy /\
    configuration o' = configuration Examples.busy.
Proof.
  assert (H : NoDup (tracked Examples.busy)).
  { apply NoDup_singleton. }
  split; [exact H|].
  exact (Unobserve_removes_target Examples.observer Examples.busy Examples.A H).
Defined.

(** X9: [Observe] followed by [Unobserve] of a target that was not tracked
    gives back the tracked targets there were; the vector comes out with
    its null slots erased. *)
Theorem Observe_then_Unobserve this o (t : Element) :
  t ∉ tracked o ->
  exists o',
    invoke_all [Observe (Some t); Unobserve (Some t)] this o =
      Some (o', [RegisterIntersectionObserverTarget t this;
                 UnregisterIntersectionObserverTarget t this]) /\
    tracked o' = tracked o /\
    observation_targets_ o' = Some <$> tracked o.
Proof.
  intros Hout. unfold tracked in *.
  cbn [invoke_all]. unfold invoke. rewrite Observe_eval, Unobserve_eval.
  cbn [observation_targets_ set_observation_targets_].
  rewrite (track_absent t _ Hout), fmap_app.
  change (Some <$> [t]) with [Some t].
  rewrite untrack_scan_found by (by rewrite omap_id_Some).
  rewrite omap_id_Some, app_nil_r. eexists. split; [reflexivity|].
  cbn [observation_targets_ set_observation_targets_].
  by rewrite omap_id_Some.
Qed.

Lemma Observe_then_Unobserve_witness :
  (Examples.B ∉ tracked Examples.busy) /\
  exists o',
    invoke_all [Observe (Some Examples.B); Unobserve (Some Examples.B)]
      Examples.observer Examples.busy =
      Some (o', [RegisterIntersectionObserverTarget Examples.B Examples.observer;
                 UnregisterIntersectionObserverTarget Examples.B Examples.observer]) /\
    tracked o' = tracked Examples.busy /\
    observation_targets_ o' = Some <$> tracked Examples.busy.
Proof.
  assert (H : Examples.B ∉ tracked Examples.busy).
  { intros Hin. apply list_elem_of_singleton in Hin. discriminate. }
  split; [exact H|].
  exact (Observe_then_Unobserve Examples.observer Examples.busy Examples.B H).
Defined.

(** X10: [Unobserve] followed by [Observe] does not give a target its old
    place back: the target ends up last among the tracked targets. *)
Theorem Unobserve_then_Observe_moves_last this o (t : Element) :
  NoDup (tracked o) ->
  exists o',
    invoke_all [Unobserve (Some t); Observe (Some t)] this o =
      Some (o', [UnregisterIntersectionObserverTarget t this;
                 RegisterIntersectionObserverTarget t this]) /\
    tracked o' = filter (fun x => x <> t) (tracked o) ++ [t].
Proof.
  intros Hnodup. unfold tracked in *.
  cbn [invoke_all]. unfold invoke. rewrite Unobserve_eval, Observe_eval.
  eexists. split; [reflexivity|].
  cbn [observation_targets_ set_observation_targets_].
  rewrite tracked_track, (tracked_untrack_scan t _ Hnodup).
  rewrite decide_False; [done|].
  rewrite list_elem_of_filter. by intros [? _].
Qed.

Lemma Unobserve_then_Observe_moves_last_witness :
  NoDup (tracked (set_observation_targets_
                    [Some Examples.A; None; Some Examples.B] Examples.busy)) /\
  exists o',
    invoke_all [Unobserve (Some Examples.A); Observe (Some Examples.A)]
      Examples.observer
      (set_observation_targets_ [Some Examples.A; None; Some Examples.B]
         Examples.busy) =
      Some (o', [UnregisterIntersectionObserverTarget Examples.A Examples.observer;
                 RegisterIntersectionObserverTarget Examples.A Examples.observer]) /\
    tracked o' =
      filter (fun x => x <> Examples.A)
        (tracked (set_observation_targets_
                    [Some Examples.A; None; Some Examples.B] Examples.busy))
      ++ [Examples.A].
Proof.
  assert (H : NoDup (tracked (set_observation_targets_
                                [Some Examples.A; None; Some Examples.B]
                                Examples.busy))).
  { apply NoDup_cons. split; [|apply NoDup_singleton].
    intros Hin. apply list_elem_of_singleton in Hin. discriminate. }
  split; [exact H|].
  exact (Unobserve_then_Observe_moves_last Examples.observer _ Examples.A H).
Defined.

(** X11: the scans of [Observe] and [Unobserve] erase null slots only as
    far as they go. When the target is tracked, the null slots before its
    slot are erased and every slot after it, null or not, stays; [Observe]
    keeps the target's slot and [Unobserve] erases it. *)
Theorem scans_prune_up_to_target this o (t : Element) (pre post : ElementVector) :
  observation_targets_ o = pre ++ (Some t :: post) ->
  t ∉ omap id pre ->
  (exists o',
     invoke (Observe (Some t)) this o =
       Some (tt, o', [RegisterIntersectionObserverTarget t this]) /\
     observation_targets_ o' = (Some <$> omap id pre) ++ (Some t :: post)) /\
  (exists o',
     invoke (Unobserve (Some t)) this o =
       Some (tt, o', [UnregisterIntersectionObserverTarget t this]) /\
     observation_targets_ o' = (Some <$> omap id pre) ++ post).
Proof.
  intros Hv Hout. split.
  - unfold invoke. rewrite Observe_eval. eexists. split; [reflexivity|].
    cbn [observation_targets_ set_observation_targets_].
    by rewrite Hv, (track_found t pre post Hout).
  - unfold invoke. rewrite Unobserve_eval. eexists. split; [reflexivity|].
    cbn [observation_targets_ set_observation_targets_].
    by rewrite Hv, (untrack_scan_found t pre post Hout).
Qed.

Lemma scans_prune_up_to_target_witness :
  observation_targets_
    (set_observation_targets_ [None; Some Examples.B; None; Some Examples.A; None]
       Examples.busy)
    = [None; Some Examples.B; None] ++ (Some Examples.A :: [None]) /\
  (Examples.A ∉ omap id [None; Some Examples.B; None]) /\
  (exists o',
     invoke (Observe (Some Examples.A)) Examples.observer
       (set_observation_targets_
          [None; Some Examples.B; None; Some Examples.A; None] Examples.busy) =
       Some (tt, o',
             [RegisterIntersectionObserverTarget Examples.A Examples.observer]) /\
     observation_targets_ o' =
       (Some <$> omap id [None; Some Examples.B; None])
       ++ (Some Examples.A :: [None])) /\
  (exists o',
     invoke (Unobserve (Some Examples.A)) Examples.observer
       (set_observation_targets_
          [None; Some Examples.B; None; Some Examples.A; None] Examples.busy) =
       Some (tt, o',
             [UnregisterIntersectionObserverTarget Examples.A Examples.observer]) /\
     observation_targets_ o' =
       (Some <$> omap id [None; Some Examples.B; None]) ++ [None]).
Proof.
  assert (H : Examples.A ∉ omap id [None; Some Examples.B; None]).
  { intros Hin. apply list_elem_of_singleton in Hin. discriminate. }
  split; [reflexivity|]. split; [exact H|].
  exact (scans_prune_up_to_target Examples.observer
           (set_observation_targets_
              [None; Some Examples.B; None; Some Examples.A; None] Examples.busy)
           Examples.A [None; Some Examples.B; None] [None] eq_refl H).
Defined.

(** X12: when the target is not tracked, the scans run to the end and
    erase every null slot: [Observe] leaves the tracked targets followed
    by the new one, [Unobserve] leaves the tracked targets, and neither
    vector holds a null slot. *)
Theorem scans_compact_when_target_absent this o (t : Element) :
  t ∉ tracked o ->
  (exists o',
     invoke (Observe (Some t)) this o =
       Some (tt, o', [RegisterIntersectionObserverTarget t this]) /\
     observation_targets_ o' = Some <$> (tracked o ++ [t])) /\
  (exists o',
     invoke (Unobserve (Some t)) this o =
       Some (tt, o', [UnregisterIntersectionObserverTarget t this]) /\
     observation_targets_ o' = Some <$> tracked o).
Proof.
  intros Hout. unfold tracked in *. split.
  - unfold invoke. rewrite Observe_eval. eexists. split; [reflexivity|].
    cbn [observation_targets_ set_observation_targets_].
    by rewrite (track_absent t _ Hout).
  - unfold invoke. rewrite Unobserve_eval. eexists. split; [reflexivity|].
    cbn [observation_targets_ set_observation_targets_].
    by rewrite (untrack_scan_absent t _ Hout).
Qed.

Lemma scans_compact_when_target_absent_witness :
  (Examples.A ∉ tracked (set_observation_targets_
                           [None; Some Examples.B; None] Examples.busy)) /\
  (exists o',
     invoke (Observe (Some Examples.A)) Examples.observer
       (set_observation_targets_ [None; Some Examples.B; None] Examples.busy) =
       Some (tt, o',
             [RegisterIntersectionObserverTarget Examples.A Examples.observer]) /\
     observation_targets_ o' =
       Some <$> (tracked (set_observation_targets_
                            [None; Some Examples.B; None] Examples.busy)
                 ++ [Examples.A])) /\
  (exists o',
     invoke (Unobserve (Some Examples.A)) Examples.observer
       (set_observation_targets_ [None; Some Examples.B; None] Examples.busy) =
       Some (tt, o',
             [UnregisterIntersectionObserverTarget Examples.A Examples.observer]) /\
     observation_targets_ o' =
       Some <$> tracked (set_observation_targets_
                           [None; Some Examples.B; None] Examples.busy)).
Proof.
  assert (H : Examples.A ∉ tracked (set_observation_targets_
                                      [None; Some Examples.B; None]
                                      Examples.busy)).
  { intros Hin. apply list_elem_of_singleton in Hin. discriminate. }
  split; [exact H|].
  exact (scans_compact_when_target_absent Examples.observer _ Examples.A H).
Defined.

(** ** The update pass *)

Lemma update_loop_null (v : ElementVector) this :
  None ∈ v -> update_loop v this = None.
Proof.
  induction v as [|[e|] rest IH]; intros Hin; cbn [update_loop].
  - by apply elem_of_nil in Hin.
  - apply elem_of_cons in Hin as [?|Hin]; [done|]. by rewrite IH.
  - done.
Qed.

Lemma update_loop_live (v : ElementVector) this :
  None ∉ v ->
  update_loop v this =
    Some ((fun t => UpdateIntersectionObservationsForTarget t this) <$> omap id v).
Proof.
  induction v as [|[e|] rest IH]; intros Hout; cbn [update_loop].
  - done.
  - apply not_elem_of_cons in Hout as [_ Hout]. by rewrite IH.
  - exfalso. apply Hout. left.
Qed.

Lemma update_loop_eval (v : ElementVector) this :
  update_loop v this =
    if decide (None ∈ v) then None
    else Some ((fun t => UpdateIntersectionObservationsForTarget t this)
                 <$> omap id v).
Proof.
  destruct (decide (None ∈ v)) as [Hin|Hout].
  - by apply update_loop_null.
  - by apply update_loop_live.
Qed.

(** X13: the update pass calls [UpdateIntersectionObservationsForTarget]
    on every tracked target, once and in tracked order, when the vector
    holds no null slot; it dereferences the first null slot it reaches
    otherwise. *)
Theorem UpdateObservationTargets_visits_tracked this o :
  UpdateObservationTargets this o =
    if decide (None ∈ observation_targets_ o) then None
    else Some ((fun t => UpdateIntersectionObservationsForTarget t this)
                 <$> tracked o).
Proof. apply update_loop_eval. Qed.

(** X14: after any sequence of [Observe] calls on an observer that tracked
    nothing, the update pass visits the targets in the order in which each
    was first observed, each of them once. *)
Theorem update_pass_follows_first_observe_order this o (ts : list Element) :
  observation_targets_ o = [] ->
  exists o' calls,
    invoke_all ((fun t => Observe (Some t)) <$> ts) this o = Some (o', calls) /\
    UpdateObservationTargets this o' =
      Some ((fun t => UpdateIntersectionObservationsForTarget t this)
              <$> first_observe_order ts).
Proof.
  intros Hfresh.
  assert (Hall := observe_all_eval ts this o [] Hfresh).
  rewrite filter_not_elem_of_nil, app_nil_l in Hall.
  eexists _, _. split; [exact Hall|].
  unfold UpdateObservationTargets.
  cbn [observation_targets_ set_observation_targets_].
  rewrite update_loop_live; [by rewrite omap_id_Some|].
  intros Hin. apply list_elem_of_fmap in Hin as (x & Hx & _). discriminate.
Qed.

Lemma update_pass_follows_first_observe_order_witness :
  observation_targets_ (set_observation_targets_ [] Examples.idle) = [] /\
  exists o' calls,
    invoke_all ((fun t => Observe (Some t)) <$> [Examples.B; Examples.A; Examples.B])
      Examples.observer (set_observation_targets_ [] Examples.idle)
      = Some (o', calls) /\
    UpdateObservationTargets Examples.observer o' =
      Some ((fun t => UpdateIntersectionObservationsForTarget t Examples.observer)
              <$> first_observe_order [Examples.B; Examples.A; Examples.B]).
Proof.
  split; [reflexivity|].
  apply (update_pass_follows_first_observe_order Examples.observer
           (set_observation_targets_ [] Examples.idle)
           [Examples.B; Examples.A; Examples.B]).
  reflexivity.
Defined.

(** X15: once [Unobserve] has returned, the update pass no longer visits
    the target: with no null slot and no target tracked twice, it visits
    the other tracked targets, in their order. *)
Theorem update_pass_skips_unobserved this o (t : Element) :
  compact o ->
  exists o',
    invoke (Unobserve (Some t)) this o =
      Some (tt, o', [UnregisterIntersectionObserverTarget t this]) /\
    UpdateObservationTargets this o' =
      Some ((fun x => UpdateIntersectionObservationsForTarget x this)
              <$> filter (fun x => x <> t) (tracked o)).
Proof.
  intros (l & Hv & Hnodup).
  eexists. split; [reflexivity|].
  unfold UpdateObservationTargets, tracked.
  cbn [observation_targets_ set_observation_targets_].
  rewrite update_loop_live.
  { by rewrite tracked_untrack_scan by (by rewrite Hv, omap_id_Some). }
  rewrite Hv. clear Hv. induction Hnodup as [|x l Hx Hl IH]; csimpl.
  - apply not_elem_of_nil.
  - destruct (decide (Some x = Some t));
      [|rewrite not_elem_of_cons; split; [done|]; exact IH].
    intros Hin. apply list_elem_of_fmap in Hin as (y & Hy & _). discriminate.
Qed.

Lemma update_pass_skips_unobserved_witness :
  compact Examples.busy /\
  exists o',
    invoke (Unobserve (Some Examples.A)) Examples.observer Examples.busy =
      Some (tt, o',
            [UnregisterIntersectionObserverTarget Examples.A Examples.observer]) /\
    UpdateObservationTargets Examples.observer o' =
      Some ((fun x => UpdateIntersectionObservationsForTarget x Examples.observer)
              <$> filter (fun x => x <> Examples.A) (tracked Examples.busy)).
Proof.
  assert (H : compact Examples.busy).
  { exists [Examples.A]. split; [reflexivity|apply NoDup_singleton]. }
  split; [exact H|].
  exact (update_pass_skips_unobserved Examples.observer Examples.busy Examples.A H).
Defined.

(** ** What no sequence of operations changes *)

Section Operations.

Implicit Types (o : IntersectionObserver) (t : Element) (l : list Element).

Lemma untrack_scan_live t l :
  NoDup l -> untrack_scan (Some t) (Some <$> l) = Some <$> filter (fun x => x <> t) l.
Proof.
  induction 1 as [|x l Hx Hl IH]; csimpl; [done|].
  destruct (decide (Some x = Some t)) as [Heq|Hne].
  - injection Heq as ->.
    rewrite filter_cons_False by (by intros H; apply H).
    by rewrite filter_absent.
  - rewrite filter_cons_True by congruence. csimpl. by rewrite IH.
Qed.

Lemma compact_track o t :
  compact o ->
  compact (set_observation_targets_ (track (Some t) (observation_targets_ o)) o).
Proof.
  intros (l & Hv & Hnodup). unfold compact.
  cbn [observation_targets_ set_observation_targets_].
  rewrite Hv, track_live. eexists. split; [reflexivity|].
  destruct (decide (t ∈ l)) as [Hin|Hout]; [done|].
  apply NoDup_app. split; [done|]. split; [|apply NoDup_singleton].
  intros x Hx Hx'. apply list_elem_of_singleton in Hx'. by subst.
Qed.

Lemma compact_untrack o t :
  compact o ->
  compact (set_observation_targets_
             (untrack_scan (Some t) (observation_targets_ o)) o).
Proof.
  intros (l & Hv & Hnodup). unfold compact.
  cbn [observation_targets_ set_observation_targets_].
  rewrite Hv, (untrack_scan_live t l Hnodup). eexists. split; [reflexivity|].
  by apply NoDup_filter.
Qed.

Lemma compact_cleared o :
  compact (set_queued_entries_ [] (set_observation_targets_ [] o)).
Proof. exists []. split; [reflexivity|constructor]. Qed.

Lemma unregister_not_lifecycle l this :
  Forall (fun c => ~ lifecycle_call c)
    ((fun t => UnregisterIntersectionObserverTarget t this) <$> l).
Proof. apply Forall_fmap, Forall_forall. intros t _ H. exact H. Qed.

(** What a call of the script on the observer keeps. *)
Lemma script_call_keeps {R} (c : ScriptCall) this o :
  exists o' calls,
    script_call (R:=R) c this o = (Next tt, o', calls) /\
    configuration o' = configuration o /\
    (compact o -> compact o') /\
    (queued_entries_ o = [] -> queued_entries_ o' = []) /\
    Forall (fun c => ~ lifecycle_call c) calls /\
    callback_runs calls = [].
Proof.
  destruct c as [[t|]|[t|]| |]; unfold script_call, nested.
  - rewrite Observe_eval. eexists _, _. split; [reflexivity|].
    split; [done|]. split; [apply compact_track|]. split; [done|].
    split; [|done]. repeat constructor. intros H. exact H.
  - eexists _, _. split; [reflexivity|]. repeat split; auto.
  - rewrite Unobserve_eval. eexists _, _. split; [reflexivity|].
    split; [done|]. split; [apply compact_untrack|]. split; [done|].
    split; [|done]. repeat constructor. intros H. exact H.
  - eexists _, _. split; [reflexivity|]. repeat split; auto.
  - rewrite Disconnect_eval. eexists _, _. split; [reflexivity|].
    split; [done|]. split; [intros _; apply compact_cleared|]. split; [done|].
    split; [apply unregister_not_lifecycle|apply callback_runs_unregister].
  - eexists _, _. split; [reflexivity|]. repeat split; auto.
Qed.

Lemma script_calls_keep {R} (cs : list ScriptCall) this o :
  exists o' calls,
    for_each (R:=R) cs script_call this o = (Next tt, o', calls) /\
    configuration o' = configuration o /\
    (compact o -> compact o') /\
    (queued_entries_ o = [] -> queued_entries_ o' = []) /\
    Forall (fun c => ~ lifecycle_call c) calls /\
    callback_runs calls = [].
Proof.
  revert o. induction cs as [|c cs IH]; intros o.
  - exists o, []. repeat split; auto.
  - destruct (script_call_keeps (R:=R) c this o)
      as (o1 & calls1 & E1 & Hcfg1 & Hc1 & Hq1 & Hl1 & Hr1).
    destruct (IH o1) as (o2 & calls2 & E2 & Hcfg2 & Hc2 & Hq2 & Hl2 & Hr2).
    exists o2, (calls1 ++ calls2). simpl. unfold mbind, M_bind.
    rewrite E1, E2. split; [done|].
    split; [congruence|]. split; [tauto|]. split; [tauto|].
    split; [by apply Forall_app|].
    by rewrite callback_runs_app, Hr1, Hr2.
Qed.

Lemma Notify_keeps this o callback :
  callback_ o = Some callback ->
  exists result o' calls,
    invoke Notify this o = Some (result, o', calls) /\
    configuration o' = configuration o /\
    (compact o -> compact o') /\
    queued_entries_ o' = [] /\
    Forall (fun c => ~ lifecycle_call c) calls /\
    Forall (proper_run this) (callback_runs calls).
Proof.
  intros Hcb. destruct (queued_entries_ o) as [|e q] eqn:Eq.
  { exists true, o, []. rewrite (Notify_empty_eval this o Eq).
    repeat split; auto; constructor. }
  destruct (script_calls_keep (R:=bool)
              (reentrant_calls (callback (e :: q) this)) this
              (set_queued_entries_ [] o))
    as (o' & calls & E & Hcfg & Hc & Hq & Hl & Hr).
  exists (negb (exception (callback (e :: q) this))), o',
    (RunScriptCallback (e :: q) this :: calls).
  split.
  { unfold invoke, Notify, nested, RunCallback, mbind, M_bind, member.
    rewrite Eq. simpl. rewrite Hcb. unfold call, this_. simpl.
    rewrite Eq, E. simpl. by rewrite app_nil_r. }
  split; [exact Hcfg|]. split; [exact Hc|]. split; [by apply Hq|].
  split.
  - constructor; [intros H; exact H|exact Hl].
  - simpl. rewrite Hr. by repeat constructor.
Qed.

Lemma configuration_members o o' :
  configuration o' = configuration o ->
  callback_ o' = callback_ o /\ root_ o' = root_ o.
Proof. unfold configuration. by intros [= -> -> _ _ _]. Qed.

(** One operation on a constructed observer. *)
Lemma perform_keeps (op : Operation) this o callback (r : Element) :
  callback_ o = Some callback -> root_ o = Some r ->
  exists o' calls,
    perform op this o = Some (o', calls) /\
    configuration o' = configuration o /\
    (compact o -> compact o') /\
    Forall (fun c => ~ lifecycle_call c) calls /\
    Forall (proper_run this) (callback_runs calls).
Proof.
  intros Hcb Hroot. destruct op as [[t|]|[t|]| | |entry|]; unfold perform.
  - unfold invoke. rewrite Observe_eval. eexists _, _. split; [reflexivity|].
    split; [done|]. split; [apply compact_track|].
    split; [|constructor]. repeat constructor. intros H. exact H.
  - eexists _, _. split; [reflexivity|]. repeat split; auto; constructor.
  - unfold invoke. rewrite Unobserve_eval. eexists _, _. split; [reflexivity|].
    split; [done|]. split; [apply compact_untrack|].
    split; [|constructor]. repeat constructor. intros H. exact H.
  - eexists _, _. split; [reflexivity|]. repeat split; auto; constructor.
  - unfold invoke. rewrite Disconnect_eval. eexists _, _. split; [reflexivity|].
    split; [done|]. split; [intros _; apply compact_cleared|].
    split; [apply unregister_not_lifecycle|].
    rewrite callback_runs_unregister. constructor.
  - eexists _, _. split; [reflexivity|]. repeat split; auto; constructor.
  - unfold invoke.
    rewrite (QueueIntersectionObserverEntry_eval entry this o r Hroot).
    eexists _, _. split; [reflexivity|]. split; [done|]. split; [done|].
    split; [|constructor]. repeat constructor. intros H. exact H.
  - destruct (Notify_keeps this o callback Hcb)
      as (result & o' & calls & E & Hcfg & Hc & _ & Hl & Hr).
    rewrite E. by exists o', calls.
Qed.

Lemma perform_all_keeps (ops : list Operation) this o callback (r : Element) :
  callback_ o = Some callback -> root_ o = Some r ->
  exists o' calls,
    perform_all ops this o = Some (o', calls) /\
    configuration o' = configuration o /\
    (compact o -> compact o') /\
    Forall (fun c => ~ lifecycle_call c) calls /\
    Forall (proper_run this) (callback_runs calls).
Proof.
  revert o. induction ops as [|op ops IH]; intros o Hcb Hroot.
  - exists o, []. repeat split; auto; constructor.
  - destruct (perform_keeps op this o callback r Hcb Hroot)
      as (o1 & calls1 & E1 & Hcfg1 & Hc1 & Hl1 & Hr1).
    destruct (configuration_members o o1 Hcfg1) as [Hcb1 Hroot1].
    destruct (IH o1) as (o2 & calls2 & E2 & Hcfg2 & Hc2 & Hl2 & Hr2);
      [congruence|congruence|].
    exists o2, (calls1 ++ calls2). cbn [perform_all]. rewrite E1, E2.
    split; [done|]. split; [congruence|]. split; [tauto|].
    split; [by apply Forall_app|].
    rewrite callback_runs_app. by apply Forall_app.
Qed.

End Operations.

Lemma constructed_members (std_sort : list double -> list double)
    this settings callback options o calls :
  construct std_sort this settings callback options = Some (o, calls) ->
  callback_ o = Some callback /\
  root_ o = Some (default (document_element settings) (root options)) /\
  compact o.
Proof.
  intros E.
  destruct (construct_outcome std_sort this settings callback options)
    as (ts & E' & _).
  rewrite E in E'. injection E' as -> _.
  split; [done|]. split; [done|]. exists []. split; [reflexivity|constructor].
Qed.

(** X16: on an observer the constructor returned, no sequence of
    operations (Observe, Unobserve, Disconnect, TakeRecords, queueing
    entries, Notify, with whatever the callbacks do to the observer while
    they run) dereferences a null pointer, and none changes the callback,
    the root, the root margin or the thresholds. *)
Theorem operations_keep_configuration
    (std_sort : list double -> list double)
    this settings callback options o calls0 (ops : list Operation) :
  construct std_sort this settings callback options = Some (o, calls0) ->
  exists o' calls,
    perform_all ops this o = Some (o', calls) /\
    callback_ o' = callback_ o /\
    root_ o' = root_ o /\
    root_margin_ o' = root_margin_ o /\
    root_margin_property_value_ o' = root_margin_property_value_ o /\
    thresholds_ o' = thresholds_ o.
Proof.
  intros E.
  destruct (constructed_members std_sort _ _ _ _ _ _ E) as (Hcb & Hroot & _).
  destruct (perform_all_keeps ops this o callback _ Hcb Hroot)
    as (o' & calls & E' & Hcfg & _).
  exists o', calls. split; [exact E'|].
  unfold configuration in Hcfg. by injection Hcfg as -> -> -> -> ->.
Qed.

Lemma operations_keep_configuration_witness :
  construct insertion_sort Examples.observer Examples.accepting Examples.throwing
    Scenario.options = Some (Scenario.constructed, Scenario.construction_calls) /\
  exists o' calls,
    perform_all Scenario.session Examples.observer Scenario.constructed
      = Some (o', calls) /\
    callback_ o' = callback_ Scenario.constructed /\
    root_ o' = root_ Scenario.constructed /\
    root_margin_ o' = root_margin_ Scenario.constructed /\
    root_margin_property_value_ o'
      = root_margin_property_value_ Scenario.constructed /\
    thresholds_ o' = thresholds_ Scenario.constructed.
Proof.
  assert (E : construct insertion_sort Examples.observer Examples.accepting
                Examples.throwing Scenario.options
              = Some (Scenario.constructed, Scenario.construction_calls))
    by reflexivity.
  split; [exact E|].
  exact (operations_keep_configuration insertion_sort Examples.observer
           Examples.accepting Examples.throwing Scenario.options
           Scenario.constructed Scenario.construction_calls Scenario.session E).
Defined.

(** X17: on an observer the constructor returned, after any sequence of
    operations the tracked vector holds no null slot and no target twice,
    so an update pass then visits every tracked target once and
    dereferences no null slot. *)
Theorem operations_keep_targets_compact
    (std_sort : list double -> list double)
    this settings callback options o calls0 (ops : list Operation) :
  construct std_sort this settings callback options = Some (o, calls0) ->
  exists o' calls,
    perform_all ops this o = Some (o', calls) /\
    NoDup (observation_targets_ o') /\
    (None ∉ observation_targets_ o') /\
    UpdateObservationTargets this o' =
      Some ((fun t => UpdateIntersectionObservationsForTarget t this)
              <$> tracked o').
Proof.
  intros E.
  destruct (constructed_members std_sort _ _ _ _ _ _ E) as (Hcb & Hroot & Hc).
  destruct (perform_all_keeps ops this o callback _ Hcb Hroot)
    as (o' & calls & E' & _ & Hc' & _).
  exists o', calls. split; [exact E'|].
  destruct (Hc' Hc) as (l & Hv & Hnodup).
  assert (Hnull : None ∉ observation_targets_ o').
  { rewrite Hv. intros Hin.
    apply list_elem_of_fmap in Hin as (x & Hx & _). discriminate. }
  split; [rewrite Hv; by apply (NoDup_fmap_2 Some)|].
  split; [exact Hnull|]. by apply update_loop_live.
Qed.

Lemma operations_keep_targets_compact_witness :
  construct insertion_sort Examples.observer Examples.accepting Examples.throwing
    Scenario.options = Some (Scenario.constructed, Scenario.construction_calls) /\
  exists o' calls,
    perform_all Scenario.session Examples.observer Scenario.constructed
      = Some (o', calls) /\
    NoDup (observation_targets_ o') /\
    (None ∉ observation_targets_ o') /\
    UpdateObservationTargets Examples.observer o' =
      Some ((fun t => UpdateIntersectionObservationsForTarget t Examples.observer)
              <$> tracked o').
Proof.
  assert (E : construct insertion_sort Examples.observer Examples.accepting
                Examples.throwing Scenario.options
              = Some (Scenario.constructed, Scenario.construction_calls))
    by reflexivity.
  split; [exact E|].
  exact (operations_keep_targets_compact insertion_sort Examples.observer
           Examples.accepting Examples.throwing Scenario.options
           Scenario.constructed Scenario.construction_calls Scenario.session E).
Defined.

(** X18: only the constructor and the destructor talk to the task manager
    about the observer's life, and only the constructor raises: no
    sequence of operations calls [OnIntersectionObserverCreated] or
    [OnIntersectionObserverDestroyed] or sets an exception. *)
Theorem operations_make_no_lifecycle_call
    (std_sort : list double -> list double)
    this settings callback options o calls0 (ops : list Operation) :
  construct std_sort this settings callback options = Some (o, calls0) ->
  exists o' calls,
    perform_all ops this o = Some (o', calls) /\
    forall c, c ∈ calls ->
      match c with
      | OnIntersectionObserverCreated _ _ => False
      | OnIntersectionObserverDestroyed _ _ => False
      | SetSimpleException _ _ => False
      | _ => True
      end.
Proof.
  intros E.
  destruct (constructed_members std_sort _ _ _ _ _ _ E) as (Hcb & Hroot & _).
  destruct (perform_all_keeps ops this o callback _ Hcb Hroot)
    as (o' & calls & E' & _ & _ & Hl & _).
  exists o', calls. split; [exact E'|].
  intros c Hc. rewrite Forall_forall in Hl. specialize (Hl c Hc).
  by destruct c; simpl in Hl.
Qed.

Lemma operations_make_no_lifecycle_call_witness :
  construct insertion_sort Examples.observer Examples.accepting Examples.throwing
    Scenario.options = Some (Scenario.constructed, Scenario.construction_calls) /\
  exists o' calls,
    perform_all Scenario.session Examples.observer Scenario.constructed
      = Some (o', calls) /\
    forall c, c ∈ calls ->
      match c with
      | OnIntersectionObserverCreated _ _ => False
      | OnIntersectionObserverDestroyed _ _ => False
      | SetSimpleException _ _ => False
      | _ => True
      end.
Proof.
  assert (E : construct insertion_sort Examples.observer Examples.accepting
                Examples.throwing Scenario.options
              = Some (Scenario.constructed, Scenario.construction_calls))
    by reflexivity.
  split; [exact E|].
  exact (operations_make_no_lifecycle_call insertion_sort Examples.observer
           Examples.accepting Examples.throwing Scenario.options
           Scenario.constructed Scenario.construction_calls Scenario.session E).
Defined.

(** X19: in any sequence of operations on a constructed observer, every
    run of the callback is handed a batch that is not empty and the
    observer itself. *)
Theorem callback_never_run_on_empty_batch
    (std_sort : list double -> list double)
    this settings callback options o calls0 (ops : list Operation) :
  construct std_sort this settings callback options = Some (o, calls0) ->
  exists o' calls,
    perform_all ops this o = Some (o', calls) /\
    forall batch observer,
      RunScriptCallback batch observer ∈ calls ->
      batch <> [] /\ observer = this.
Proof.
  intros E.
  destruct (constructed_members std_sort _ _ _ _ _ _ E) as (Hcb & Hroot & _).
  destruct (perform_all_keeps ops this o callback _ Hcb Hroot)
    as (o' & calls & E' & _ & _ & _ & Hr).
  exists o', calls. split; [exact E'|].
  intros batch observer Hin. rewrite Forall_forall in Hr.
  apply (Hr (batch, observer)). unfold callback_runs.
  apply list_elem_of_omap. by exists (RunScriptCallback batch observer).
Qed.

Lemma callback_never_run_on_empty_batch_witness :
  construct insertion_sort Examples.observer Examples.accepting Examples.throwing
    Scenario.options = Some (Scenario.constructed, Scenario.construction_calls) /\
  exists o' calls,
    perform_all Scenario.session Examples.observer Scenario.constructed
      = Some (o', calls) /\
    forall batch observer,
      RunScriptCallback batch observer ∈ calls ->
      batch <> [] /\ observer = Examples.observer.
Proof.
  assert (E : construct insertion_sort Examples.observer Examples.accepting
                Examples.throwing Scenario.options
              = Some (Scenario.constructed, Scenario.construction_calls))
    by reflexivity.
  split; [exact E|].
  exact (callback_never_run_on_empty_batch insertion_sort Examples.observer
           Examples.accepting Examples.throwing Scenario.options
           Scenario.constructed Scenario.construction_calls Scenario.session E).
Defined.

(** ** Delivery, composed *)

Lemma perform_all_app (ops1 ops2 : list Operation) this o o1 calls1 :
  perform_all ops1 this o = Some (o1, calls1) ->
  perform_all (ops1 ++ ops2) this o =
    match perform_all ops2 this o1 with
    | Some (o2, calls2) => Some (o2, calls1 ++ calls2)
    | None => None
    end.
Proof.
  revert o o1 calls1. induction ops1 as [|op ops1 IH]; intros o o1 calls1 E.
  - injection E as <- <-. simpl. by destruct (perform_all ops2 this o) as [[? ?]|].
  - cbn [app perform_all] in *.
    destruct (perform op this o) as [[oa callsa]|]; [|done].
    destruct (perform_all ops1 this oa) as [[ob callsb]|] eqn:Eb; [|done].
    injection E as <- <-. rewrite (IH oa ob callsb Eb).
    destruct (perform_all ops2 this ob) as [[? ?]|]; [|done].
    by rewrite app_assoc.
Qed.

Lemma perform_all_queue (es : IntersectionObserverEntrySequence) this o r :
  root_ o = Some r ->
  perform_all (DoQueueEntry <$> es) this o =
    Some (set_queued_entries_ (queued_entries_ o ++ es) o,
          replicate (length es)
            (QueueIntersectionObserverTask (TaskManagerOfDocumentOf r))).
Proof.
  revert o. induction es as [|e es IH]; intros o Hroot.
  - simpl. rewrite app_nil_r. by destruct o.
  - rewrite fmap_cons. cbn [perform_all perform]. unfold invoke.
    rewrite (QueueIntersectionObserverEntry_eval e this o r Hroot).
    cbn [without_result].
    rewrite (IH (set_queued_entries_ (queued_entries_ o ++ [e]) o) Hroot).
    simpl. by rewrite <- app_assoc.
Qed.

(** X20: every [QueueIntersectionObserverEntry] appends its entry at the
    back of the queue and asks the task manager of the root's document for
    a delivery task: [n] entries make [n] requests, the observer does not
    merge them. *)
Theorem one_task_request_per_entry this o (r : Element)
    (es : IntersectionObserverEntrySequence) :
  root_ o = Some r ->
  perform_all (DoQueueEntry <$> es) this o =
    Some (set_queued_entries_ (queued_entries_ o ++ es) o,
          replicate (length es)
            (QueueIntersectionObserverTask (TaskManagerOfDocumentOf r))).
Proof. apply perform_all_queue. Qed.

Lemma one_task_request_per_entry_witness :
  root_ Examples.busy = Some Examples.document_root /\
  perform_all (DoQueueEntry <$> [Examples.entryForB; Examples.entryForA])
    Examples.observer Examples.busy =
    Some (set_queued_entries_
            (queued_entries_ Examples.busy
               ++ [Examples.entryForB; Examples.entryForA]) Examples.busy,
          replicate (length [Examples.entryForB; Examples.entryForA])
            (QueueIntersectionObserverTask
               (TaskManagerOfDocumentOf Examples.document_root))).
Proof.
  split; [reflexivity|].
  apply (one_task_request_per_entry Examples.observer Examples.busy
           Examples.document_root [Examples.entryForB; Examples.entryForA]).
  reflexivity.
Defined.

(** X21: two [Notify] calls in a row deliver once: the callback runs a
    single time for the two, on the batch the first call found, and the
    queue is empty afterwards. *)
Theorem Notify_twice_delivers_once this o callback :
  callback_ o = Some callback ->
  queued_entries_ o <> [] ->
  exists o' calls,
    perform_all [DoNotify; DoNotify] this o = Some (o', calls) /\
    callback_runs calls = [(queued_entries_ o, this)] /\
    queued_entries_ o' = [].
Proof.
  intros Hcb Hq.
  destruct (Notify_eval this o callback Hcb Hq)
    as (o' & calls & E & Hruns & Hq' & _ & _).
  exists o', (RunScriptCallback (queued_entries_ o) this :: calls).
  cbn [perform_all perform]. rewrite E. cbn [without_result].
  rewrite (Notify_empty_eval this o' Hq'). cbn [without_result].
  rewrite !app_nil_r. split; [done|]. split; [|done].
  simpl. by rewrite Hruns.
Qed.

Lemma Notify_twice_delivers_once_witness :
  callback_ Examples.busy = Some Examples.throwing /\
  queued_entries_ Examples.busy <> [] /\
  exists o' calls,
    perform_all [DoNotify; DoNotify] Examples.observer Examples.busy
      = Some (o', calls) /\
    callback_runs calls = [(queued_entries_ Examples.busy, Examples.observer)] /\
    queued_entries_ o' = [].
Proof.
  split; [reflexivity|]. split; [discriminate|].
  apply (Notify_twice_delivers_once Examples.observer Examples.busy
           Examples.throwing).
  - reflexivity.
  - discriminate.
Defined.

(** X22: entries taken with [TakeRecords] are never delivered: however
    many entries were queued, a [Notify] that follows the [TakeRecords]
    runs no callback; the queue is empty afterwards and the tracked
    targets are the ones there were. *)
Theorem TakeRecords_preempts_delivery this o (r : Element)
    (es : IntersectionObserverEntrySequence) :
  root_ o = Some r ->
  exists o' calls,
    perform_all ((DoQueueEntry <$> es) ++ [DoTakeRecords; DoNotify]) this o
      = Some (o', calls) /\
    callback_runs calls = [] /\
    queued_entries_ o' = [] /\
    observation_targets_ o' = observation_targets_ o.
Proof.
  intros Hroot.
  rewrite (perform_all_app _ _ _ _ _ _ (perform_all_queue es this o r Hroot)).
  cbn [perform_all perform]. rewrite TakeRecords_eval. cbn [without_result].
  rewrite Notify_empty_eval by reflexivity. cbn [without_result].
  eexists _, _. split; [reflexivity|]. split; [|done].
  rewrite !app_nil_r. clear. induction es as [|e es IH]; [done|exact IH].
Qed.

Lemma TakeRecords_preempts_delivery_witness :
  root_ Examples.busy = Some Examples.document_root /\
  exists o' calls,
    perform_all ((DoQueueEntry <$> [Examples.entryForB])
                 ++ [DoTakeRecords; DoNotify]) Examples.observer Examples.busy
      = Some (o', calls) /\
    callback_runs calls = [] /\
    queued_entries_ o' = [] /\
    observation_targets_ o' = observation_targets_ Examples.busy.
Proof.
  split; [reflexivity|].
  apply (TakeRecords_preempts_delivery Examples.observer Examples.busy
           Examples.document_root [Examples.entryForB]).
  reflexivity.
Defined.

(** X23: [Disconnect] cancels pending delivery: entries queued before it
    are dropped, so a [Notify] that follows runs no callback, and nothing
    is tracked or queued afterwards. *)
Theorem Disconnect_cancels_pending_delivery this o (r : Element)
    (es : IntersectionObserverEntrySequence) :
  root_ o = Some r ->
  exists o' calls,
    perform_all ((DoQueueEntry <$> es) ++ [DoDisconnect; DoNotify]) this o
      = Some (o', calls) /\
    callback_runs calls = [] /\
    observation_targets_ o' = [] /\
    queued_entries_ o' = [].
Proof.
  intros Hroot.
  rewrite (perform_all_app _ _ _ _ _ _ (perform_all_queue es this o r Hroot)).
  cbn [perform_all perform]. unfold invoke at 1. rewrite Disconnect_eval.
  cbn [without_result].
  rewrite Notify_empty_eval by reflexivity. cbn [without_result].
  eexists _, _. split; [reflexivity|]. split; [|done].
  rewrite !callback_runs_app, callback_runs_unregister, !app_nil_r.
  clear. induction es as [|e es IH]; [done|exact IH].
Qed.

Lemma Disconnect_cancels_pending_delivery_witness :
  root_ Examples.busy = Some Examples.document_root /\
  exists o' calls,
    perform_all ((DoQueueEntry <$> [Examples.entryForA])
                 ++ [DoDisconnect; DoNotify]) Examples.observer Examples.busy
      = Some (o', calls) /\
    callback_runs calls = [] /\
    observation_targets_ o' = [] /\
    queued_entries_ o' = [].
Proof.
  split; [reflexivity|].
  apply (Disconnect_cancels_pending_delivery Examples.observer Examples.busy
           Examples.document_root [Examples.entryForA]).
  reflexivity.
Defined.

(** X24: a second [Disconnect] finds nothing to do: after one
    [Disconnect], another makes no call and leaves the observer as it
    is. *)
Theorem Disconnect_twice this o :
  exists o1 calls1,
    invoke Disconnect this o = Some (tt, o1, calls1) /\
    invoke Disconnect this o1 = Some (tt, o1, []).
Proof.
  unfold invoke. rewrite Disconnect_eval. eexists _, _.
  split; [reflexivity|]. by rewrite Disconnect_eval.
Qed.

(** X25: [Observe] calls the target's registration function on every
    call, before it looks whether the target is tracked: a sequence of
    [Observe] calls makes one registration call per call, in call order,
    repeated targets included, and no other call. *)
Theorem every_Observe_registers this o (ts : list Element) :
  exists o',
    invoke_all ((fun t => Observe (Some t)) <$> ts) this o =
      Some (o', (fun t => RegisterIntersectionObserverTarget t this) <$> ts).
Proof.
  revert o. induction ts as [|t ts IH]; intros o.
  - by exists o.
  - rewrite !fmap_cons. cbn [invoke_all]. unfold invoke.
    rewrite Observe_eval.
    destruct (IH (set_observation_targets_
                    (track (Some t) (observation_targets_ o)) o)) as (o' & E).
    rewrite E. by exists o'.
Qed.
